(** * scrapport: extraction of betting markets from rendered sportsbook markup

    A shallow embedding of [src/main.go] and the properties its specification
    states about it.

    Go strings are byte sequences, so they are Rocq [string]s (one [ascii] per
    byte, UTF-8 for anything outside ASCII).  A [float64] is a [spec_float] at
    precision 53 and maximal exponent 1024.  Console output ([log], [fmt]) is
    a trace of calls threaded through a small state monad.  The packages the
    program imports ([strings], [strconv], [goquery]) are modelled in modules
    of the same names. *)

From Stdlib Require Import ZArith Ascii Floats.SpecFloat Permutation.
From stdpp Require Import base list strings gmap.

Open Scope string_scope.
Open Scope list_scope.

(** ** Bytes *)

Definition byteVal (c : ascii) : Z := Z.of_N (N_of_ascii c).

Definition inRange (lo hi : Z) (c : ascii) : bool :=
  (lo <=? byteVal c)%Z && (byteVal c <=? hi)%Z.

(** [s[n:]] for [n <= len(s)]. *)
Fixpoint sliceFrom (n : nat) (s : string) : string :=
  match n, s with
  | S n', String _ s' => sliceFrom n' s'
  | _, _ => s
  end.

(** The minus sign U+2212, UTF-8 encoded: E2 88 92. *)
Definition unicodeMinus : string :=
  String (ascii_of_nat 226) (String (ascii_of_nat 136) (String (ascii_of_nat 146) "")).

(** ** float64 *)

Definition float64 : Type := spec_float.

Module F64.
Definition prec : Z := 53.
Definition emax : Z := 1024.
Definition zero : float64 := S754_zero false.
Definition neg (x : float64) : float64 := SFopp x.
(** Go's [x == y] on float64. *)
Definition eqb (x y : float64) : bool := SFeqb x y.
(** The float64 nearest to the integer [z]. *)
Definition ofZ (z : Z) : float64 := binary_normalize prec emax z 0 false.
(** The float64 nearest to [m / d], for [m, d > 0], with sign [s]. *)
Definition ofRatio (s : bool) (m d : positive) : float64 :=
  SFdiv prec emax (S754_finite s m 0) (S754_finite false d 0).
Definition isInf (x : float64) : bool :=
  match x with S754_infinity _ => true | _ => false end.
End F64.

(** ** Package strings *)

Module strings.

(** [len(s) >= len(prefix) && s[:len(prefix)] == prefix] *)
Definition HasPrefix (s prefix : string) : bool :=
  (String.length prefix <=? String.length s)%nat
  && String.eqb (String.substring 0 (String.length prefix) s) prefix.

Definition TrimPrefix (s prefix : string) : string :=
  if HasPrefix s prefix then sliceFrom (String.length prefix) s else s.

(** The table [asciiSpace]: tab, newline, vertical tab, form feed, carriage
    return, space. *)
Definition asciiSpace (c : ascii) : bool :=
  inRange 9 13 c || (byteVal c =? 32)%Z.

(** [unicode.IsSpace] on a code point: the Latin-1 cases and the
    White_Space property above Latin-1. *)
Definition IsSpace (r : Z) : bool :=
  ((9 <=? r) && (r <=? 13) || (r =? 32) || (r =? 133) || (r =? 160)
   || (r =? 5760) || (8192 <=? r) && (r <=? 8202) || (r =? 8232)
   || (r =? 8233) || (r =? 8239) || (r =? 8287) || (r =? 12288))%Z.

Definition isCont (c : ascii) : bool := inRange 128 191 c.

(** [b0 b1] is the UTF-8 encoding of a white-space rune. *)
Definition space2 (b0 b1 : ascii) : bool :=
  inRange 194 223 b0 && isCont b1
  && IsSpace (Z.lor (Z.shiftl (Z.land (byteVal b0) 31) 6)
                    (Z.land (byteVal b1) 63)).

(** [b0 b1 b2] is the UTF-8 encoding of a white-space rune. *)
Definition space3 (b0 b1 b2 : ascii) : bool :=
  inRange 224 239 b0 && isCont b1 && isCont b2
  && (negb (byteVal b0 =? 224)%Z || (160 <=? byteVal b1)%Z)
  && (negb (byteVal b0 =? 237)%Z || (byteVal b1 <=? 159)%Z)
  && IsSpace (Z.lor (Z.shiftl (Z.land (byteVal b0) 15) 12)
               (Z.lor (Z.shiftl (Z.land (byteVal b1) 63) 6)
                      (Z.land (byteVal b2) 63))).

(** [TrimLeftFunc(s, unicode.IsSpace)]: drop white-space runes from the
    front.  A rune of four bytes is never white space, and a byte that
    starts no valid encoding decodes to U+FFFD, which is not white space
    either. *)
Fixpoint trimLeft (s : string) : string :=
  match s with
  | String b0 s1 =>
      if asciiSpace b0 then trimLeft s1 else
      match s1 with
      | String b1 s2 =>
          if space2 b0 b1 then trimLeft s2 else
          match s2 with
          | String b2 s3 => if space3 b0 b1 b2 then trimLeft s3 else s
          | EmptyString => s
          end
      | EmptyString => s
      end
  | EmptyString => s
  end.

(** The same from the back, on the reversed bytes. *)
Fixpoint trimLeftRev (r : string) : string :=
  match r with
  | String b0 r1 =>
      if asciiSpace b0 then trimLeftRev r1 else
      match r1 with
      | String b1 r2 =>
          if space2 b1 b0 then trimLeftRev r2 else
          match r2 with
          | String b2 r3 => if space3 b2 b1 b0 then trimLeftRev r3 else r
          | EmptyString => r
          end
      | EmptyString => r
      end
  | EmptyString => r
  end.

Definition trimRight (s : string) : string :=
  String.rev (trimLeftRev (String.rev s)).

(** [TrimSpace]: its ASCII fast path and its fall-back agree with
    [TrimFunc(s, unicode.IsSpace)]. *)
Definition TrimSpace (s : string) : string := trimRight (trimLeft s).

Fixpoint Repeat (s : string) (count : nat) : string :=
  match count with
  | O => ""
  | S n => s +:+ Repeat s n
  end.

End strings.

(** ** Errors *)

Inductive errKind := ErrSyntax | ErrRange.

(** The [error] values the program meets: a [*strconv.NumError], or the
    failure of a reader, known by its message. *)
Inductive error :=
| NumError (Func Num : string) (Err : errKind)
| ReadError (msg : string).

(** ** Package strconv

    [ParseFloat] belongs to Go's standard library.  The model reads the input
    the way [readFloat] does (sign, digits with an optional point,
    underscores, exponent, the hexadecimal form) and rounds the value read to
    the nearest float64, ties to even, which is what the library's conversion
    paths compute.  The library keeps the first 19 digits of the mantissa in a
    [uint64] and re-reads the text when they do not decide the rounding; the
    model keeps every digit in a [Z]. *)

Module strconv.

(** [c | ('x' - 'X')] *)
Definition lower (c : ascii) : ascii := ascii_of_N (N.lor (N_of_ascii c) 32).

Definition isDigit (c : ascii) : bool := inRange 48 57 c.
Definition isHexLetter (c : ascii) : bool := inRange 97 102 (lower c).
Definition isByte (c : ascii) (n : Z) : bool := (byteVal c =? n)%Z.

Fixpoint commonPrefixLenIgnoreCase (s prefix : string) : nat :=
  match s, prefix with
  | String c s', String p prefix' =>
      let c := if inRange 65 90 c then ascii_of_N (N_of_ascii c + 32) else c in
      if Ascii.eqb c p then S (commonPrefixLenIgnoreCase s' prefix') else O
  | _, _ => O
  end.

Definition infinityLen (s : string) : nat :=
  let n := commonPrefixLenIgnoreCase s "infinity" in
  if (3 <? n)%nat && (n <? 8)%nat then 3%nat else n.

(** [special]: the value and the number of bytes read, for an optionally
    signed "inf" or "infinity" and for "nan", in any case. *)
Definition special (s : string) : option (float64 * nat) :=
  match s with
  | EmptyString => None
  | String c s' =>
      if isByte c 43 || isByte c 45 then
        let n := infinityLen s' in
        if (n =? 3)%nat || (n =? 8)%nat
        then Some (S754_infinity (isByte c 45), S n) else None
      else if isByte c 105 || isByte c 73 then
        let n := infinityLen s in
        if (n =? 3)%nat || (n =? 8)%nat
        then Some (S754_infinity false, n) else None
      else if isByte c 110 || isByte c 78 then
        if (commonPrefixLenIgnoreCase s "nan" =? 3)%nat
        then Some (S754_nan, 3%nat) else None
      else None
  end.

Inductive sawKind := sawStart | sawDigit | sawUnderscore | sawOther.

Fixpoint underscoreLoop (hex : bool) (s : string) (saw : sawKind) : bool :=
  match s with
  | EmptyString => match saw with sawUnderscore => false | _ => true end
  | String c s' =>
      if isDigit c || hex && isHexLetter c then underscoreLoop hex s' sawDigit
      else if isByte c 95 then
        match saw with
        | sawDigit => underscoreLoop hex s' sawUnderscore
        | _ => false
        end
      else
        match saw with
        | sawUnderscore => false
        | _ => underscoreLoop hex s' sawOther
        end
  end.

(** [underscoreOK]: underscores only between digits, or between a base
    prefix and a digit. *)
Definition underscoreOK (s : string) : bool :=
  let s :=
    match s with
    | String c s' => if isByte c 45 || isByte c 43 then s' else s
    | EmptyString => s
    end in
  match s with
  | String z (String b s') =>
      if isByte z 48
         && (isByte (lower b) 98 || isByte (lower b) 111 || isByte (lower b) 120)
      then underscoreLoop (isByte (lower b) 120) s' sawDigit
      else underscoreLoop false s sawStart
  | _ => underscoreLoop false s sawStart
  end.

(** What the digit loop of [readFloat] leaves behind. *)
Record digitScan := {
  mantissa : Z;      (* the digits read, leading zeros apart *)
  nd : Z;            (* how many of them *)
  dp : Z;            (* position of the point *)
  sawdot : bool;
  sawdigits : bool;
  underscores : bool;
  unread : string    (* s[i:] *)
}.

Fixpoint scanDigits (hex : bool) (s : string) (mant nd dp : Z)
         (sawdot sawdigits underscores : bool) : digitScan :=
  let stop := Build_digitScan mant nd dp sawdot sawdigits underscores s in
  match s with
  | EmptyString => stop
  | String c s' =>
      if isByte c 95 then
        scanDigits hex s' mant nd dp sawdot sawdigits true
      else if isByte c 46 then
        if sawdot then stop
        else scanDigits hex s' mant nd nd true sawdigits underscores
      else if isDigit c then
        if isByte c 48 && (nd =? 0)%Z then
          scanDigits hex s' mant nd (dp - 1)%Z sawdot true underscores
        else
          scanDigits hex s' (mant * (if hex then 16 else 10) + (byteVal c - 48))%Z
                     (nd + 1)%Z dp sawdot true underscores
      else if hex && isHexLetter c then
        scanDigits hex s' (mant * 16 + (byteVal (lower c) - 97 + 10))%Z
                   (nd + 1)%Z dp sawdot true underscores
      else stop
  end.

(** The exponent's digits; the value stops growing at 10000. *)
Fixpoint scanExp (s : string) (e : Z) (underscores : bool)
  : Z * bool * string :=
  match s with
  | EmptyString => (e, underscores, s)
  | String c s' =>
      if isByte c 95 then scanExp s' e true
      else if isDigit c then
        scanExp s' (if (e <? 10000)%Z then e * 10 + (byteVal c - 48) else e)%Z
                underscores
      else (e, underscores, s)
  end.

Record floatParts := {
  fp_mantissa : Z;
  fp_exp : Z;
  fp_neg : bool;
  fp_hex : bool;
  fp_nd : Z;
  fp_unread : string
}.

(** [readFloat]: [None] where the library returns [ok = false]. *)
Definition readFloat (s : string) : option floatParts :=
  match s with
  | EmptyString => None
  | String c0 s0 =>
      let '(neg, s1) :=
        if isByte c0 43 then (false, s0)
        else if isByte c0 45 then (true, s0)
        else (false, s) in
      let hex :=
        match s1 with
        | String z (String x (String _ _)) => isByte z 48 && isByte (lower x) 120
        | _ => false
        end in
      let sc := scanDigits hex (if hex then sliceFrom 2 s1 else s1)
                           0 0 0 false false false in
      if negb (sawdigits sc) then None else
      let dp := if sawdot sc then dp sc else nd sc in
      let dp := (if hex then dp * 4 else dp)%Z in
      let ndMant := (if hex then nd sc * 4 else nd sc)%Z in
      let finish (dp : Z) (us : bool) (rest : string) :=
        let exp := (if (mantissa sc =? 0)%Z then 0 else dp - ndMant)%Z in
        if us && negb (underscoreOK
               (String.substring 0 (String.length s - String.length rest) s))
        then None
        else Some (Build_floatParts (mantissa sc) exp neg hex (nd sc) rest) in
      let noExp :=
        if hex then None else finish dp (underscores sc) (unread sc) in
      match unread sc with
      | String e r =>
          if isByte (lower e) (if hex then 112 else 101) then
            match r with
            | EmptyString => None
            | String sg r' =>
                let '(esign, digits) :=
                  if isByte sg 43 then (1%Z, r')
                  else if isByte sg 45 then ((-1)%Z, r')
                  else (1%Z, r) in
                match digits with
                | String d _ =>
                    if isDigit d then
                      let '(e, us, rest) := scanExp digits 0 (underscores sc) in
                      finish (dp + e * esign)%Z us rest
                    else None
                | EmptyString => None
                end
            end
          else noExp
      | EmptyString => noExp
      end
  end.

(** The float64 nearest to [mant * 10^exp], [mant] having [nd] digits.
    Above 10^310 it is an infinity and below 10^-330 a zero, as in
    [decimal.floatBits]. *)
Definition decimalFloat (neg : bool) (mant exp nd : Z) : float64 :=
  match mant with
  | Zpos m =>
      if (310 <? exp + nd)%Z then S754_infinity neg
      else if (exp + nd <? -330)%Z then S754_zero neg
      else if (0 <=? exp)%Z
           then F64.ofRatio neg (m * Z.to_pos (10 ^ exp)) 1
           else F64.ofRatio neg m (Z.to_pos (10 ^ (- exp)))
  | _ => S754_zero neg
  end.

(** [atofHex]: the float64 nearest to [mant * 2^exp]. *)
Definition hexFloat (neg : bool) (mant exp : Z) : float64 :=
  match mant with
  | Zpos m => binary_round F64.prec F64.emax neg m exp
  | _ => S754_zero neg
  end.

(** [ParseFloat(s, 64)]: the value and the error.  A value that overflows
    comes back as an infinity with [ErrRange]; text that is not a number, or
    not only a number, as 0 with [ErrSyntax]. *)
Definition ParseFloat (s : string) : float64 * option error :=
  let syntaxError := (F64.zero, Some (NumError "ParseFloat" s ErrSyntax)) in
  match special s with
  | Some (f, n) =>
      if (n =? String.length s)%nat then (f, None) else syntaxError
  | None =>
      match readFloat s with
      | Some p =>
          match fp_unread p with
          | EmptyString =>
              let f := if fp_hex p
                       then hexFloat (fp_neg p) (fp_mantissa p) (fp_exp p)
                       else decimalFloat (fp_neg p) (fp_mantissa p) (fp_exp p)
                                         (fp_nd p) in
              if F64.isInf f
              then (f, Some (NumError "ParseFloat" s ErrRange))
              else (f, None)
          | String _ _ => syntaxError
          end
      | None => syntaxError
      end
  end.

End strconv.

(** ** Package goquery

    The markup-query library is an external collaborator; the program uses a
    parsed document only through [Find] with a class selector, [Each] and
    [Text].  A node is a text node, an element with its class names and its
    children, or a node with neither text nor children (comment, doctype).
    The document root is an element without class.  Parsing markup into a
    tree is left to a parameter of the program, see [NewDocumentFromReader]
    below. *)

Module goquery.

#[warnings="-register-all"]
Inductive Node :=
| TextNode (Data : string)
| ElementNode (Data : string) (class : list string) (children : list Node)
| OtherNode (Data : string).

(** A selection is a sequence of nodes in document order.  [Each] hands its
    callback a selection of one node; the model hands it the node. *)
Definition Selection := list Node.

Definition hasClass (cls : string) (n : Node) : bool :=
  match n with
  | ElementNode _ class _ => bool_decide (cls ∈ class)
  | _ => false
  end.

(** The element nodes of the subtree at [n] that carry class [cls], [n]
    included, in document order. *)
Fixpoint matchAll (cls : string) (n : Node) : Selection :=
  match n with
  | ElementNode _ _ children =>
      (if hasClass cls n then [n] else [])
      ++ flat_map (matchAll cls) children
  | _ => []
  end.

(** The class a selector [".cls"] names.  The program uses no other kind
    of selector, and none is modelled. *)
Definition selectorClass (selector : string) : option string :=
  match selector with
  | String c cls => if Ascii.eqb c "."%char then Some cls else None
  | EmptyString => None
  end.

(** [Find(".cls")] on a selection of one node: its proper descendants that
    match.  Every selection the program calls [Find] on has one node. *)
Definition Find (n : Node) (selector : string) : Selection :=
  match selectorClass selector, n with
  | Some cls, ElementNode _ _ children => flat_map (matchAll cls) children
  | _, _ => []
  end.

Fixpoint nodeText (n : Node) : string :=
  match n with
  | TextNode Data => Data
  | ElementNode _ _ children =>
      fold_right (fun c acc => nodeText c +:+ acc) "" children
  | OtherNode _ => ""
  end.

(** [Text]: the text of every node of the selection and of its
    descendants, concatenated. *)
Definition Text (s : Selection) : string :=
  fold_right (fun n acc => nodeText n +:+ acc) "" s.

Fixpoint eachFrom {S : Type} (j : nat) (s : Selection)
         (f : nat -> Node -> S -> S) (st : S) : S :=
  match s with
  | [] => st
  | n :: s' => eachFrom (Datatypes.S j) s' f (f j n st)
  end.

(** [Each]: call [f] on the index and the node, in order.  The variables
    the Go closure captures and assigns are the state [st]. *)
Definition Each {S : Type} (s : Selection) (f : nat -> Node -> S -> S)
           (st : S) : S :=
  eachFrom 0 s f st.

End goquery.

(** ** Console output *)

Inductive Value :=
| VString (s : string)
| VInt (n : Z)
| VFloat (f : float64)
| VError (e : error).

(** One call of a printing function, with its arguments unformatted. *)
Inductive Call :=
| log_Println (args : list Value)
| log_Printf (format : string) (args : list Value)
| fmt_Println (args : list Value)
| fmt_Printf (format : string) (args : list Value).

(** The calls made so far, oldest first. *)
Definition Console := list Call.

Definition IO (A : Type) : Type := Console -> A * Console.

#[export] Instance IO_ret : MRet IO := fun A a c => (a, c).
#[export] Instance IO_bind : MBind IO :=
  fun A B k m c => let '(a, c') := m c in k a c'.

Definition call (e : Call) : IO unit := fun c => (tt, c ++ [e]).

Fixpoint forEach {A : Type} (l : list A) (body : A -> IO unit) : IO unit :=
  match l with
  | [] => mret tt
  | a :: l' => body a ;; forEach l' body
  end.

Definition nl : string := String (ascii_of_nat 10) "".

(** ** The program *)

(** Market represents a betting market with game info, bet type, odds, and
    line. *)
Record Market := {
  Game : string;
  Side : string;
  Odds : float64;
  Line : float64;
  BetType : string
}.

Definition betTypes : list string := ["Spread"; "Total"; "Moneyline"].

Definition parseOdds (oddsStr : string) : float64 :=
  let oddsStr := strings.TrimSpace oddsStr in
  if String.eqb oddsStr "" then F64.zero else
  let isMinus := strings.HasPrefix oddsStr "-"
                 || strings.HasPrefix oddsStr unicodeMinus in
  let oddsStr := strings.TrimPrefix oddsStr "+" in
  let oddsStr := strings.TrimPrefix oddsStr "-" in
  let oddsStr := strings.TrimPrefix oddsStr unicodeMinus in
  match strconv.ParseFloat oddsStr with
  | (_, Some _) => F64.zero
  | (val, None) => if isMinus then F64.neg val else val
  end.

(** The closure over [teamA], [teamB] at lines 96-103. *)
Definition teamLabelFunc (j : nat) (teamSel : goquery.Node)
           (teams : string * string) : string * string :=
  let '(teamA, teamB) := teams in
  match j with
  | 0 => (strings.TrimSpace (goquery.Text [teamSel]), teamB)
  | 1 => (teamA, strings.TrimSpace (goquery.Text [teamSel]))
  | _ => (teamA, teamB)
  end.

(** The record the closure at lines 112-134 builds for button [j]. *)
Definition buttonMarket (gameDescription : string) (j : nat)
           (button : goquery.Node) : Market :=
  let lineText := goquery.Text (goquery.Find button ".cb-market__button-points") in
  let oddsText := goquery.Text (goquery.Find button ".cb-market__button-odds") in
  let betType := nth (j mod 3) betTypes "" in
  let line := parseOdds lineText in
  let odds := parseOdds oddsText in
  let side := if (3 <=? j)%nat then "under" else "over" in
  {| Game := gameDescription; Side := side; Odds := odds;
     Line := line; BetType := betType |}.

(** The closure over [markets] at lines 112-134. *)
Definition buttonFunc (gameDescription : string) (j : nat)
           (button : goquery.Node) (markets : list Market) : list Market :=
  markets ++ [buttonMarket gameDescription j button].

(** The closure over [markets] at lines 92-135. *)
Definition gameWrapperFunc (i : nat) (gameWrapper : goquery.Node)
           (markets : list Market) : list Market :=
  let '(teamA, teamB) :=
    goquery.Each (goquery.Find gameWrapper ".cb-market__label-inner")
                 teamLabelFunc ("", "") in
  if String.eqb teamA "" || String.eqb teamB "" then markets else
  let gameDescription := teamA +:+ " vs " +:+ teamB in
  goquery.Each (goquery.Find gameWrapper ".cb-market__button")
               (buttonFunc gameDescription) markets.

Definition groupByGame (markets : list Market) : gmap string (list Market) :=
  fold_left (fun gameMap m =>
               <[Game m := default [] (gameMap !! Game m) ++ [m]]> gameMap)
            markets ∅.

Definition lineFormat : string :=
  "  %-10s | %-8s | Line: %6.1f | Odds: %+6.0f" +:+ nl.
Definition noLineFormat : string :=
  "  %-10s | %-8s | Odds: %+6.0f" +:+ nl.

(** The body of the loop over a game's records, lines 183-189. *)
Definition printMarket (m : Market) : IO unit :=
  if negb (F64.eqb (Line m) F64.zero) then
    call (fmt_Printf lineFormat
            [VString (BetType m); VString (Side m); VFloat (Line m); VFloat (Odds m)])
  else
    call (fmt_Printf noLineFormat
            [VString (BetType m); VString (Side m); VFloat (Odds m)]).

Section Program.

(** [goquery.NewDocumentFromReader(strings.NewReader(html))]: the document
    root, or the reader's error. *)
Variable NewDocumentFromReader : string -> goquery.Node + error.

(** The order in which [range] visits a map.  Go leaves it unspecified: it
    is some order of the map's entries, which is all the properties below
    assume of it. *)
Variable rangeOrder :
  gmap string (list Market) -> list (string * list Market).

Definition parseMarkets (html : string) : IO (list Market) :=
  match NewDocumentFromReader html with
  | inr err =>
      call (log_Printf ("Error parsing HTML: %v" +:+ nl) [VError err]) ;;
      mret []
  | inl doc =>
      mret (goquery.Each (goquery.Find doc ".cb-market__template")
                         gameWrapperFunc [])
  end.

Definition printMarkets (markets : list Market) : IO unit :=
  if (length markets =? 0)%nat then
    call (log_Println [VString "No markets found"])
  else
    call (fmt_Printf (nl +:+ "=== Found %d Markets ===" +:+ nl +:+ nl)
            [VInt (Z.of_nat (length markets))]) ;;
    let gameMap := groupByGame markets in
    forEach (rangeOrder gameMap) (fun '(game, gameMarkets) =>
      call (fmt_Printf ("%s" +:+ nl) [VString game]) ;;
      call (fmt_Println [VString (strings.Repeat "-" (String.length game))]) ;;
      forEach gameMarkets printMarket ;;
      call (fmt_Println [])).

End Program.

(** ** The scrape cycle *)

Definition NFLURL : string :=
  "https://sportsbook.draftkings.com/leagues/football/nfl".

Section Cycle.

Variable NewDocumentFromReader : string -> goquery.Node + error.

Variable rangeOrder :
  gmap string (list Market) -> list (string * list Market).

(** [chromedp.Run] with the actions [Navigate(url)],
    [WaitVisible(sel, ByQuery)] and [OuterHTML(sel', &htmlContent)]: what it
    leaves in [htmlContent], or its error (a deadline that passes is one).
    The browser is an external collaborator; the contexts and their release
    are not modelled. *)
Variable chromedp_Run : string -> string -> string -> string + error.

(** [fmt.Errorf] with one [%w] operand. *)
Variable fmt_Errorf : string -> error -> error.

Definition scrapeNFLMarkets : IO (list Market * option error) :=
  call (log_Println [VString "Loading page with headless Chrome..."]) ;;
  match chromedp_Run NFLURL ".cms-market-selector-content" "html" with
  | inr err => mret ([], Some (fmt_Errorf "chromedp error: %w" err))
  | inl htmlContent =>
      call (log_Println [VString "Parsing markets..."]) ;;
      markets ← parseMarkets NewDocumentFromReader htmlContent;
      mret (markets, None)
  end.

Definition scrapeAndLog : IO unit :=
  call (log_Println [VString (nl +:+ "=== Starting scrape ===")]) ;;
  result ← scrapeNFLMarkets;
  match result.2 with
  | Some err =>
      call (log_Printf ("Error scraping markets: %v" +:+ nl) [VError err])
  | None => printMarkets rangeOrder result.1
  end.

End Cycle.

(** ** Notions the statements use *)

(** The UTF-8 encoding of one white-space rune. *)
Inductive spaceRune : string -> Prop :=
| spaceRune1 b :
    strings.asciiSpace b = true -> spaceRune (String b "")
| spaceRune2 b0 b1 :
    strings.space2 b0 b1 = true -> spaceRune (String b0 (String b1 ""))
| spaceRune3 b0 b1 b2 :
    strings.space3 b0 b1 b2 = true ->
    spaceRune (String b0 (String b1 (String b2 ""))).

(** Empty, or white-space runes only. *)
Inductive whitespaceOnly : string -> Prop :=
| whitespaceOnly_nil : whitespaceOnly ""
| whitespaceOnly_cons r s :
    spaceRune r -> whitespaceOnly s -> whitespaceOnly (r +:+ s).

(** The text [parseOdds] hands to [ParseFloat] (lines 141, 148-150). *)
Definition numericText (oddsStr : string) : string :=
  strings.TrimPrefix
    (strings.TrimPrefix
       (strings.TrimPrefix (strings.TrimSpace oddsStr) "+") "-")
    unicodeMinus.

(** The three sign markers, and the two that mark a negative number. *)
Definition signMarkers : list string := ["+"; "-"; unicodeMinus].
Definition negativityMarkers : list string := ["-"; unicodeMinus].

Definition startsWithMarker (t : string) : bool :=
  strings.HasPrefix t "+" || strings.HasPrefix t "-"
  || strings.HasPrefix t unicodeMinus.

(** [t] carries at most one sign marker: behind a leading marker there is
    no second one. *)
Definition atMostOneMarker (t : string) : Prop :=
  forall p u, p ∈ signMarkers -> t = p +:+ u -> startsWithMarker u = false.

(** Everything [parseOdds] can cut from the front of the trimmed text: a
    plus sign, then a hyphen, then a U+2212, each at most once. *)
Definition cutPrefixes : list string :=
  p1 ← [""; "+"]; p2 ← [""; "-"]; p3 ← [""; unicodeMinus];
  [p1 +:+ p2 +:+ p3].

(** The selections of a game wrapper, and the game wrappers of a document. *)
Definition teamLabels (gameWrapper : goquery.Node) : goquery.Selection :=
  goquery.Find gameWrapper ".cb-market__label-inner".
Definition buttons (gameWrapper : goquery.Node) : goquery.Selection :=
  goquery.Find gameWrapper ".cb-market__button".
Definition gameWrappers (doc : goquery.Node) : goquery.Selection :=
  goquery.Find doc ".cb-market__template".

(** The trimmed text of a team label. *)
Definition labelText (teamSel : goquery.Node) : string :=
  strings.TrimSpace (goquery.Text [teamSel]).

(** The records one game wrapper adds to the result. *)
Definition marketsOf (gameWrapper : goquery.Node) : list Market :=
  gameWrapperFunc 0 gameWrapper [].

Definition sideOf (j : nat) : string := if (j <? 3)%nat then "over" else "under".

(** The report, call by call. *)
Definition noMarketsCall : Call := log_Println [VString "No markets found"].

Definition headerCall (n : nat) : Call :=
  fmt_Printf (nl +:+ "=== Found %d Markets ===" +:+ nl +:+ nl) [VInt (Z.of_nat n)].

(** The line of one record: bet type, side, the line when it is not zero,
    the odds under the signed verb [%+6.0f]. *)
Definition marketCall (m : Market) : Call :=
  fmt_Printf (if F64.eqb (Line m) F64.zero then noLineFormat else lineFormat)
    ([VString (BetType m); VString (Side m)]
       ++ (if F64.eqb (Line m) F64.zero then [] else [VFloat (Line m)])
       ++ [VFloat (Odds m)]).

Definition recordsOf (game : string) (markets : list Market) : list Market :=
  filter (fun m => Game m = game) markets.

(** The block of one game: its name, a rule, its records in the order of
    extraction, an empty line. *)
Definition gameBlock (markets : list Market) (game : string) : list Call :=
  [fmt_Printf ("%s" +:+ nl) [VString game];
   fmt_Println [VString (strings.Repeat "-" (String.length game))]]
    ++ (marketCall <$> recordsOf game markets)
    ++ [fmt_Println []].

(** What the body of the loop over the map prints for one entry. *)
Definition entryBlock (entry : string * list Market) : list Call :=
  [fmt_Printf ("%s" +:+ nl) [VString entry.1];
   fmt_Println [VString (strings.Repeat "-" (String.length entry.1))]]
    ++ (marketCall <$> entry.2)
    ++ [fmt_Println []].

(** The names [teamLabelFunc] leaves in [teamA] and [teamB]: the trimmed
    texts of the first and of the second label, empty where there is none. *)
Definition teamNames (labels : goquery.Selection) : string * string :=
  (match labels with l0 :: _ => labelText l0 | [] => "" end,
   match labels with _ :: l1 :: _ => labelText l1 | _ => "" end).

(** ** Sample documents *)

Module Sample.
Import goquery.

Definition label (name : string) : Node :=
  ElementNode "span" ["cb-market__label-inner"] [TextNode name].

Definition button (points odds : string) : Node :=
  ElementNode "div" ["cb-market__button"; "cb-market__button--wide"]
    [ElementNode "span" ["cb-market__button-points"] [TextNode points];
     ElementNode "span" ["cb-market__button-odds"] [TextNode odds]].

Definition sixButtons : list Node :=
  [button "-3.5" (unicodeMinus +:+ "110"); button "O 45.5" "-105";
   button "" "+150"; button "+3.5" "-110"; button "U 45.5" "-115";
   button "" (unicodeMinus +:+ "180")].

Definition game (names : list string) (buttons : list Node) : Node :=
  ElementNode "div" ["cb-market__template"] ((label <$> names) ++ buttons).

Definition page (games : list Node) : Node :=
  ElementNode "" [] [ElementNode "html" [] [ElementNode "body" [] games]].

(** Three labels and six buttons; one label; a blank second label. *)
Definition eagles : Node := game [" Eagles "; "Cowboys"; "Live"] sixButtons.
Definition jets : Node := game ["Jets"] sixButtons.
Definition bills : Node := game ["Bills"; "  "] sixButtons.

Definition doc : Node := page [eagles; jets; bills].
Definition emptyDoc : Node := page [].

Definition reader (html : string) : Node + error :=
  if String.eqb html "" then inr (ReadError "unexpected EOF") else inl doc.

Definition market (game side betType : string) (odds line : float64) : Market :=
  {| Game := game; Side := side; Odds := odds; Line := line; BetType := betType |}.

Definition markets : list Market :=
  [market "Eagles vs Cowboys" "over" "Spread" (F64.ofZ (-110)) (F64.ofZ (-3));
   market "Jets vs Bills" "over" "Moneyline" (F64.ofZ 150) F64.zero;
   market "Eagles vs Cowboys" "under" "Total" (F64.ofZ (-115)) F64.zero].
End Sample.

(** ** Further notions *)

(** [s] starts with the encoding of a white-space rune. *)
Definition leadsWithSpace (s : string) : bool :=
  match s with
  | String b0 s1 =>
      strings.asciiSpace b0
      || match s1 with
         | String b1 s2 =>
             strings.space2 b0 b1
             || match s2 with
                | String b2 _ => strings.space3 b0 b1 b2
                | EmptyString => false
                end
         | EmptyString => false
         end
  | EmptyString => false
  end.

(** The same on reversed bytes: the text ends with one. *)
Definition leadsWithSpaceRev (r : string) : bool :=
  match r with
  | String b0 r1 =>
      strings.asciiSpace b0
      || match r1 with
         | String b1 r2 =>
             strings.space2 b1 b0
             || match r2 with
                | String b2 _ => strings.space3 b2 b1 b0
                | EmptyString => false
                end
         | EmptyString => false
         end
  | EmptyString => false
  end.

(** The guard at line 105 lets the wrapper through. *)
Definition kept (gameWrapper : goquery.Node) : bool :=
  negb (String.eqb (teamNames (teamLabels gameWrapper)).1 ""
        || String.eqb (teamNames (teamLabels gameWrapper)).2 "").

(** A call that prints one record. *)
Definition isRecordCall (k : Call) : bool :=
  match k with
  | fmt_Printf format _ =>
      String.eqb format lineFormat || String.eqb format noLineFormat
  | _ => false
  end.

(** The lines every scrape cycle starts with. *)
Definition startCall : Call :=
  log_Println [VString (nl +:+ "=== Starting scrape ===")].
Definition loadingCall : Call :=
  log_Println [VString "Loading page with headless Chrome..."].
Definition parsingCall : Call := log_Println [VString "Parsing markets..."].

Module SampleCycle.

(** A browser that times out, one that returns markup the reader rejects,
    and one that returns the sample page. *)
Definition timeout (url sel sel' : string) : string + error :=
  inr (ReadError "context deadline exceeded").
Definition blank (url sel sel' : string) : string + error := inl "".
Definition loaded (url sel sel' : string) : string + error := inl "<html>".

Definition errorf (format : string) (err : error) : error :=
  match err with
  | ReadError msg => ReadError ("chromedp error: " +:+ msg)
  | NumError _ _ _ => err
  end.

End SampleCycle.

(** Two runs of [parseMarkets], the second on the console the first has
    left. *)
Definition parseTwice (NewDocumentFromReader : string -> goquery.Node + error)
           (html html' : string) : IO (list Market * list Market) :=
  first ← parseMarkets NewDocumentFromReader html;
  second ← parseMarkets NewDocumentFromReader html';
  mret (first, second).



(** A leading plus or hyphen cut, and the leading decimal digits counted
    and cut. *)
Definition dropSign (s : string) : string :=
  match s with
  | String c s' => if strconv.isByte c 43 || strconv.isByte c 45 then s' else s
  | EmptyString => s
  end.

Fixpoint skipDigits (s : string) : nat * string :=
  match s with
  | String c s' =>
      if strconv.isDigit c
      then let '(n, rest) := skipDigits s' in (S n, rest)
      else (O, s)
  | EmptyString => (O, s)
  end.

(** A decimal floating-point numeral, as the specification words it: an
    optional sign, decimal digits with at most one point among them, at
    least one digit, and an optional exponent of [e] or [E], an optional
    sign and at least one digit. *)
Definition decimalNumeral (s : string) : bool :=
  let '(n1, r1) := skipDigits (dropSign s) in
  let '(n2, r2) :=
    match r1 with
    | String c r => if strconv.isByte c 46 then skipDigits r else (O, r1)
    | EmptyString => (O, r1)
    end in
  (0 <? n1 + n2)%nat
  && match r2 with
     | EmptyString => true
     | String e r =>
         (strconv.isByte e 101 || strconv.isByte e 69)
         && let '(n3, r3) := skipDigits (dropSign r) in
            (0 <? n3)%nat && String.eqb r3 ""
     end.

(** * Properties *)

(** ** Strings *)

Section StringFacts.

Lemma HasPrefix_empty (s : string) : strings.HasPrefix s "" = true.
Proof. unfold strings.HasPrefix. simpl. by destruct s. Qed.

Lemma HasPrefix_cons (c d : ascii) (s p : string) :
  strings.HasPrefix (String c s) (String d p)
  = Ascii.eqb c d && strings.HasPrefix s p.
Proof.
  unfold strings.HasPrefix. simpl.
  destruct (String.length p <=? String.length s)%nat; simpl.
  - destruct (Ascii.eqb_spec c d) as [->|Hne]; simpl; [done|].
    destruct (String.eqb_spec
      (String c (String.substring 0 (String.length p) s)) (String d p))
      as [Heq|]; [|done].
    congruence.
  - by rewrite andb_false_r.
Qed.

Lemma append_cons (c : ascii) (s t : string) :
  String c s +:+ t = String c (s +:+ t).
Proof. reflexivity. Qed.

Lemma HasPrefix_true (s p : string) :
  strings.HasPrefix s p = true -> s = p +:+ sliceFrom (String.length p) s.
Proof.
  revert s. induction p as [|d p IH]; intros s H.
  - by destruct s.
  - destruct s as [|c s]; [done|].
    rewrite HasPrefix_cons in H. apply andb_prop in H as [Hc Hp].
    apply Ascii.eqb_eq in Hc as ->. rewrite append_cons. simpl.
    f_equal. by apply IH.
Qed.

(** [TrimPrefix] cuts [prefix] when it is there and nothing otherwise. *)
Lemma TrimPrefix_cases (s prefix : string) :
  strings.HasPrefix s prefix = true /\ s = prefix +:+ strings.TrimPrefix s prefix
  \/ strings.HasPrefix s prefix = false /\ strings.TrimPrefix s prefix = s.
Proof.
  unfold strings.TrimPrefix.
  destruct (strings.HasPrefix s prefix) eqn:H; [left|right]; split; try done.
  by apply HasPrefix_true.
Qed.

End StringFacts.

(** ** White space *)

Section TrimSpaceFacts.

Lemma space2_lead (b0 b1 : ascii) :
  strings.space2 b0 b1 = true -> inRange 194 223 b0 = true.
Proof.
  unfold strings.space2. intros H.
  by apply andb_prop in H as [[H _]%andb_prop _].
Qed.

Lemma space3_lead (b0 b1 b2 : ascii) :
  strings.space3 b0 b1 b2 = true -> inRange 224 239 b0 = true.
Proof.
  unfold strings.space3. intros H.
  by do 5 (apply andb_prop in H as [H _]).
Qed.

Lemma inRange_bounds (lo hi : Z) (c : ascii) :
  inRange lo hi c = true -> (lo <= byteVal c <= hi)%Z.
Proof. unfold inRange. intros [?%Z.leb_le ?%Z.leb_le]%andb_prop. lia. Qed.

Lemma inRange_outside (lo hi lo' hi' : Z) (c : ascii) :
  inRange lo hi c = true -> (hi < lo' \/ hi' < lo)%Z -> inRange lo' hi' c = false.
Proof.
  intros H%inRange_bounds Hd. unfold inRange.
  apply andb_false_iff. rewrite !Z.leb_gt. lia.
Qed.

(** A byte of 128 or more is no ASCII white space. *)
Lemma asciiSpace_high (c : ascii) (lo hi : Z) :
  inRange lo hi c = true -> (32 < lo)%Z -> strings.asciiSpace c = false.
Proof.
  intros H%inRange_bounds Hlo. unfold strings.asciiSpace, inRange.
  apply orb_false_iff. split.
  - apply andb_false_iff. rewrite !Z.leb_gt. lia.
  - apply Z.eqb_neq. lia.
Qed.

Lemma trimLeft_spaceRune (r s : string) :
  spaceRune r -> strings.trimLeft (r +:+ s) = strings.trimLeft s.
Proof.
  destruct 1 as [b Hb | b0 b1 H2 | b0 b1 b2 H3];
    rewrite ?append_cons; change ("" +:+ s) with s.
  - simpl. by rewrite Hb.
  - pose proof (space2_lead _ _ H2) as Hl.
    simpl. rewrite (asciiSpace_high _ _ _ Hl) by lia. by rewrite H2.
  - pose proof (space3_lead _ _ _ H3) as Hl.
    assert (strings.space2 b0 b1 = false) as H2.
    { unfold strings.space2.
      rewrite (inRange_outside _ _ 194 223 _ Hl) by lia. done. }
    simpl. rewrite (asciiSpace_high _ _ _ Hl) by lia. by rewrite H2, H3.
Qed.



End TrimSpaceFacts.

(** ** parseOdds *)

Section ParseOddsFacts.

Lemma parseOdds_unfold (s : string) :
  parseOdds s =
    if String.eqb (strings.TrimSpace s) "" then F64.zero else
    match strconv.ParseFloat (numericText s) with
    | (_, Some _) => F64.zero
    | (val, None) =>
        if strings.HasPrefix (strings.TrimSpace s) "-"
           || strings.HasPrefix (strings.TrimSpace s) unicodeMinus
        then F64.neg val else val
    end.
Proof. reflexivity. Qed.



Lemma parseOdds_parsed (s : string) (v : float64) :
  strings.TrimSpace s <> "" ->
  strconv.ParseFloat (numericText s) = (v, None) ->
  parseOdds s =
    if strings.HasPrefix (strings.TrimSpace s) "-"
       || strings.HasPrefix (strings.TrimSpace s) unicodeMinus
    then F64.neg v else v.
Proof.
  intros Hne H. rewrite parseOdds_unfold, H.
  by destruct (String.eqb_spec (strings.TrimSpace s) "").
Qed.

(** Behind a plus sign no minus of either kind leads. *)
Lemma isMinus_plus (u : string) :
  strings.HasPrefix ("+" +:+ u) "-" || strings.HasPrefix ("+" +:+ u) unicodeMinus
  = false.
Proof. unfold unicodeMinus. by rewrite !append_cons, !HasPrefix_cons. Qed.

Ltac cut_by p := exists p; split; [vm_compute; set_solver|].

(** [E : t = p +:+ u] with a marker [p], and [H] says [u] starts with a
    marker: [t] carries two. *)
Ltac second_marker Hone E H :=
  let p := lazymatch type of E with _ = ?p +:+ _ => p end in
  let u := lazymatch type of E with _ = _ +:+ ?u => u end in
  specialize (Hone p u ltac:(set_solver) E);
  unfold startsWithMarker in Hone; rewrite H in Hone;
  by rewrite ?orb_true_r in Hone.

(** What is cut before the conversion, and when the value is negated. *)
Lemma numericText_cut (s : string) :
  exists p,
    p ∈ cutPrefixes
    /\ strings.TrimSpace s = p +:+ numericText s
    /\ (strings.HasPrefix (strings.TrimSpace s) "-"
        || strings.HasPrefix (strings.TrimSpace s) unicodeMinus)
       = bool_decide (p ∈ ["-"; unicodeMinus; "-" +:+ unicodeMinus])
    /\ (atMostOneMarker (strings.TrimSpace s) -> p ∈ "" :: signMarkers).
Proof.
  unfold numericText. generalize (strings.TrimSpace s) as t. intros t.
  destruct (TrimPrefix_cases t "+") as [[H1 E1]|[H1 E1]];
  destruct (TrimPrefix_cases (strings.TrimPrefix t "+") "-") as [[H2 E2]|[H2 E2]];
  destruct (TrimPrefix_cases
              (strings.TrimPrefix (strings.TrimPrefix t "+") "-") unicodeMinus)
    as [[H3 E3]|[H3 E3]].
  all: revert H1 E1 H2 E2 H3 E3;
       generalize (strings.TrimPrefix
              (strings.TrimPrefix (strings.TrimPrefix t "+") "-") unicodeMinus) as t3;
       generalize (strings.TrimPrefix (strings.TrimPrefix t "+") "-") as t2;
       generalize (strings.TrimPrefix t "+") as t1;
       intros t1 t2 t3 H1 E1 H2 E2 H3 E3.
  - cut_by ("+" +:+ "-" +:+ unicodeMinus).
    split; [by rewrite E1, E2, E3 at 1|]. split.
    + rewrite E1. by rewrite isMinus_plus.
    + intros Hone. second_marker Hone E1 H2.
  - cut_by ("+" +:+ "-"). subst t3.
    split; [by rewrite E1, E2 at 1|]. split.
    + rewrite E1. by rewrite isMinus_plus.
    + intros Hone. second_marker Hone E1 H2.
  - cut_by ("+" +:+ unicodeMinus). subst t2.
    split; [by rewrite E1, E3 at 1|]. split.
    + rewrite E1. by rewrite isMinus_plus.
    + intros Hone. second_marker Hone E1 H3.
  - cut_by "+". subst t3 t2.
    split; [done|]. split.
    + rewrite E1. by rewrite isMinus_plus.
    + intros _. set_solver.
  - cut_by ("-" +:+ unicodeMinus). subst t1.
    split; [by rewrite E2, E3 at 1|]. split.
    + by rewrite H2.
    + intros Hone. second_marker Hone E2 H3.
  - cut_by "-". subst t1 t3.
    split; [done|]. split.
    + by rewrite H2.
    + intros _. set_solver.
  - cut_by unicodeMinus. subst t1 t2.
    split; [done|]. split.
    + by rewrite H2, H3.
    + intros _. set_solver.
  - cut_by "". subst t1 t2 t3.
    split; [done|]. split.
    + by rewrite H2, H3.
    + intros _. set_solver.
Qed.

(** C2: on the empty string parseOdds returns 0.0, on "+150" 150.0, on
    "-110" -110.0, on U+2212 followed by "110" -110.0, and on "abc" 0.0. *)
Theorem parseOdds_vectors :
  parseOdds "" = F64.zero
  /\ parseOdds "+150" = F64.ofZ 150
  /\ parseOdds "-110" = F64.ofZ (-110)
  /\ parseOdds (unicodeMinus +:+ "110") = F64.ofZ (-110)
  /\ parseOdds "abc" = F64.zero.
Proof. vm_compute. repeat split. Qed.

(** C3, as the claim states it, fails on "+-5": two markers are cut before
    the conversion, no single marker (and no empty cut) accounts for what
    is gone, and the value comes back positive although a hyphen, a
    negativity marker, was among what was cut. *)
Lemma parseOdds_plus_hyphen :
  strings.TrimSpace "+-5" = ("+" +:+ "-") +:+ numericText "+-5"
  /\ (forall p, p ∈ "" :: signMarkers ->
        strings.TrimSpace "+-5" <> p +:+ numericText "+-5")
  /\ strconv.ParseFloat (numericText "+-5") = (F64.ofZ 5, None)
  /\ parseOdds "+-5" = F64.ofZ 5
  /\ ~ (forall s, exists p,
          p ∈ signMarkers
          /\ strings.TrimSpace s = p +:+ numericText s
          /\ forall val,
               strconv.ParseFloat (numericText s) = (val, None) ->
               parseOdds s = if bool_decide (p ∈ negativityMarkers)
                             then F64.neg val else val).
Proof.
  assert (forall p, p ∈ "" :: signMarkers ->
            strings.TrimSpace "+-5" <> p +:+ numericText "+-5") as Hno.
  { intros p Hp. unfold signMarkers in Hp.
    repeat (apply elem_of_cons in Hp as [->|Hp]); try by vm_compute.
    by apply elem_of_nil in Hp. }
  repeat split; try done.
  intros Hall. destruct (Hall "+-5") as (p & Hp & Hcut & _).
  eapply Hno; [|exact Hcut]. by apply elem_of_cons; right.
Qed.

(** C3, as amended: behind the white space parseOdds cuts at most one
    plus sign, then at most one hyphen, then at most one U+2212, so nothing
    or up to three markers, and hands the rest to the conversion; it
    negates the value converted exactly when the trimmed text starts with a
    hyphen or a U+2212, that is when the cut is a hyphen, a U+2212 or both.
    On text that carries at most one marker, that marker (when present) is
    all that is cut, and the value is negated exactly when it is a
    negativity marker. *)
Theorem parseOdds_sign_then_magnitude (s : string) :
  exists p,
    p ∈ cutPrefixes
    /\ strings.TrimSpace s = p +:+ numericText s
    /\ (forall val,
          strings.TrimSpace s <> "" ->
          strconv.ParseFloat (numericText s) = (val, None) ->
          parseOdds s =
            if bool_decide (p ∈ ["-"; unicodeMinus; "-" +:+ unicodeMinus])
            then F64.neg val else val)
    /\ (atMostOneMarker (strings.TrimSpace s) ->
        p ∈ "" :: signMarkers
        /\ forall val,
             strings.TrimSpace s <> "" ->
             strconv.ParseFloat (numericText s) = (val, None) ->
             parseOdds s = if bool_decide (p ∈ negativityMarkers)
                           then F64.neg val else val).
Proof.
  destruct (numericText_cut s) as (p & Hp & Hcut & Hneg & Hone).
  exists p. split; [done|]. split; [done|].
  assert (forall val,
            strings.TrimSpace s <> "" ->
            strconv.ParseFloat (numericText s) = (val, None) ->
            parseOdds s =
              if bool_decide (p ∈ ["-"; unicodeMinus; "-" +:+ unicodeMinus])
              then F64.neg val else val) as Hval.
  { intros val Hne Hparse. rewrite <- Hneg. by apply parseOdds_parsed. }
  split; [done|].
  intros Hp1%Hone. split; [done|].
  intros val Hne Hparse. rewrite (Hval val Hne Hparse).
  unfold signMarkers in Hp1.
  repeat (apply elem_of_cons in Hp1 as [->|Hp1]); try done.
  by apply elem_of_nil in Hp1.
Qed.

Lemma atMostOneMarker_hyphen_110 : atMostOneMarker "-110".
Proof.
  intros p u Hp. unfold signMarkers in Hp.
  repeat (apply elem_of_cons in Hp as [->|Hp]);
    [| |unfold unicodeMinus|by apply elem_of_nil in Hp];
    rewrite !append_cons; change ("" +:+ u) with u; intros [= <-]; done.
Qed.

(** On "-110" the hyphen alone is cut and 110 is negated. *)
Lemma parseOdds_sign_then_magnitude_witness :
  parseOdds "-110" = F64.neg (F64.ofZ 110).
Proof.
  destruct (parseOdds_sign_then_magnitude "-110") as (p & _ & Hcut & _ & Hone).
  destruct (Hone atMostOneMarker_hyphen_110) as [Hp Hval].
  rewrite (Hval (F64.ofZ 110)); [|done|by vm_compute].
  unfold signMarkers in Hp.
  repeat (apply elem_of_cons in Hp as [->|Hp]); try done.
  by apply elem_of_nil in Hp.
Defined.

Lemma decimalNumeral_samples :
  decimalNumeral "150" = true /\ decimalNumeral "-3.5" = true
  /\ decimalNumeral ".5" = true /\ decimalNumeral "1e-3" = true
  /\ decimalNumeral "5." = true /\ decimalNumeral "+2.5E+10" = true
  /\ decimalNumeral "abc" = false /\ decimalNumeral "" = false
  /\ decimalNumeral "." = false /\ decimalNumeral "1e" = false
  /\ decimalNumeral "1.2.3" = false /\ decimalNumeral "12 " = false.
Proof. by vm_compute. Qed.









End ParseOddsFacts.

(** ** parseMarkets *)

Section ClosureFacts.

Lemma eachFrom_teamLabelFunc_rest (j : nat) (rest : goquery.Selection)
      (teams : string * string) :
  2 <= j -> goquery.eachFrom j rest teamLabelFunc teams = teams.
Proof.
  revert j teams. induction rest as [|n rest IH]; intros j [a b] Hj; [done|].
  simpl. destruct j as [|[|j]]; [lia|lia|]. simpl. apply IH. lia.
Qed.

Lemma Each_teamLabelFunc (labels : goquery.Selection) :
  goquery.Each labels teamLabelFunc ("", "") = teamNames labels.
Proof.
  unfold goquery.Each, teamNames, labelText.
  destruct labels as [|l0 [|l1 rest]]; [done|done|].
  simpl. by rewrite eachFrom_teamLabelFunc_rest by lia.
Qed.

Lemma eachFrom_buttonFunc (game : string) (j : nat)
      (bs : goquery.Selection) (markets : list Market) :
  goquery.eachFrom j bs (buttonFunc game) markets
  = markets ++ imap (fun k => buttonMarket game (j + k)) bs.
Proof.
  revert j markets. induction bs as [|b bs IH]; intros j markets; simpl.
  - by rewrite app_nil_r.
  - rewrite IH. unfold buttonFunc. rewrite <- app_assoc. simpl.
    rewrite Nat.add_0_r. do 2 f_equal.
    apply imap_ext. intros k ? _. simpl. f_equal. lia.
Qed.

(** One wrapper: nothing when a name is empty, otherwise one record for
    each button, in order. *)
Lemma marketsOf_eq (w : goquery.Node) :
  marketsOf w =
    let '(teamA, teamB) := teamNames (teamLabels w) in
    if String.eqb teamA "" || String.eqb teamB "" then []
    else imap (buttonMarket (teamA +:+ " vs " +:+ teamB)) (buttons w).
Proof.
  unfold marketsOf, gameWrapperFunc.
  fold (teamLabels w). fold (buttons w). rewrite Each_teamLabelFunc.
  destruct (teamNames (teamLabels w)) as [a b].
  destruct (String.eqb a "" || String.eqb b ""); [done|].
  unfold goquery.Each. by rewrite eachFrom_buttonFunc.
Qed.

Lemma gameWrapperFunc_app (i : nat) (w : goquery.Node) (markets : list Market) :
  gameWrapperFunc i w markets = markets ++ marketsOf w.
Proof.
  unfold marketsOf, gameWrapperFunc.
  destruct (goquery.Each _ teamLabelFunc _) as [a b].
  destruct (String.eqb a "" || String.eqb b ""); [by rewrite app_nil_r|].
  unfold goquery.Each. by rewrite !eachFrom_buttonFunc.
Qed.

Lemma eachFrom_gameWrapperFunc (i : nat) (ws : goquery.Selection)
      (markets : list Market) :
  goquery.eachFrom i ws gameWrapperFunc markets
  = markets ++ flat_map marketsOf ws.
Proof.
  revert i markets. induction ws as [|w ws IH]; intros i markets; simpl.
  - by rewrite app_nil_r.
  - by rewrite IH, gameWrapperFunc_app, <- app_assoc.
Qed.

Lemma marketsOf_skipped (w : goquery.Node) :
  (teamNames (teamLabels w)).1 = "" \/ (teamNames (teamLabels w)).2 = "" ->
  marketsOf w = [].
Proof.
  rewrite marketsOf_eq. destruct (teamNames (teamLabels w)) as [a b]. simpl.
  intros [->| ->]; [done|]. by rewrite orb_true_r.
Qed.

Lemma marketsOf_kept (w : goquery.Node) :
  (teamNames (teamLabels w)).1 <> "" -> (teamNames (teamLabels w)).2 <> "" ->
  marketsOf w =
    imap (buttonMarket ((teamNames (teamLabels w)).1 +:+ " vs "
                        +:+ (teamNames (teamLabels w)).2)) (buttons w).
Proof.
  rewrite marketsOf_eq. destruct (teamNames (teamLabels w)) as [a b]. simpl.
  intros Ha Hb.
  destruct (String.eqb_spec a ""); [done|].
  by destruct (String.eqb_spec b "").
Qed.

(** A wrapper is skipped as a whole or yields a record for every button. *)
Lemma marketsOf_length (w : goquery.Node) :
  marketsOf w = [] \/ length (marketsOf w) = length (buttons w).
Proof.
  rewrite marketsOf_eq. destruct (teamNames (teamLabels w)) as [a b].
  destruct (String.eqb a "" || String.eqb b ""); [by left|right].
  apply length_imap.
Qed.

Lemma marketsOf_lookup (w : goquery.Node) (j : nat) (m : Market) :
  marketsOf w !! j = Some m ->
  exists button,
    buttons w !! j = Some button
    /\ m = buttonMarket ((teamNames (teamLabels w)).1 +:+ " vs "
                         +:+ (teamNames (teamLabels w)).2) j button.
Proof.
  rewrite marketsOf_eq. destruct (teamNames (teamLabels w)) as [a b].
  destruct (String.eqb a "" || String.eqb b ""); [by rewrite lookup_nil|].
  rewrite list_lookup_imap. intros (button & Hb & ->)%fmap_Some.
  by exists button.
Qed.

Lemma betTypes_cycle (j : nat) :
  betTypes !! (j mod 3) = Some (nth (j mod 3) betTypes "").
Proof.
  assert (j mod 3 < 3) as Hlt by (apply Nat.mod_upper_bound; lia).
  destruct (j mod 3) as [|[|[|k]]]; try done. lia.
Qed.

Lemma buttonMarket_side (game : string) (j : nat) (button : goquery.Node) :
  Side (buttonMarket game j button) = sideOf j.
Proof.
  unfold buttonMarket, sideOf. cbn [Side].
  destruct (Nat.leb_spec 3 j), (Nat.ltb_spec j 3); try done; lia.
Qed.

Lemma kept_true (w : goquery.Node) :
  kept w = true <->
  (teamNames (teamLabels w)).1 <> "" /\ (teamNames (teamLabels w)).2 <> "".
Proof.
  unfold kept. rewrite negb_true_iff, orb_false_iff.
  by destruct (String.eqb_spec (teamNames (teamLabels w)).1 ""),
              (String.eqb_spec (teamNames (teamLabels w)).2 ""); split;
    intros [? ?].
Qed.

Lemma marketsOf_kept_eq (w : goquery.Node) :
  marketsOf w =
    if kept w
    then imap (buttonMarket ((teamNames (teamLabels w)).1 +:+ " vs "
                             +:+ (teamNames (teamLabels w)).2)) (buttons w)
    else [].
Proof.
  rewrite marketsOf_eq. unfold kept.
  destruct (teamNames (teamLabels w)) as [a b]. simpl.
  by destruct (String.eqb a "" || String.eqb b "").
Qed.

Lemma marketsOf_nil_iff (w : goquery.Node) :
  marketsOf w = [] <-> kept w = false \/ buttons w = [].
Proof.
  rewrite marketsOf_kept_eq. destruct (kept w); [|by split; [left|]].
  split.
  - intros H%(f_equal length). rewrite length_imap in H.
    right. by destruct (buttons w).
  - intros [?| ->]; done.
Qed.

Lemma fmap_Game_imap (game : string) (f : nat -> goquery.Node -> Market)
      (bs : goquery.Selection) :
  (forall k b, Game (f k b) = game) ->
  Game <$> imap f bs = replicate (length bs) game.
Proof.
  revert f. induction bs as [|b bs IH]; intros f Hf; [done|].
  simpl. rewrite Hf. f_equal. apply IH. intros k b'. apply Hf.
Qed.

End ClosureFacts.

Section ParseMarketsFacts.

Variable NewDocumentFromReader : string -> goquery.Node + error.

Lemma parseMarkets_parsed (html : string) (doc : goquery.Node) (c : Console) :
  NewDocumentFromReader html = inl doc ->
  parseMarkets NewDocumentFromReader html c
  = (flat_map marketsOf (gameWrappers doc), c).
Proof.
  intros H. unfold parseMarkets. rewrite H. unfold goquery.Each.
  by rewrite eachFrom_gameWrapperFunc.
Qed.

Lemma parseMarkets_failed (html : string) (err : error) (c : Console) :
  NewDocumentFromReader html = inr err ->
  parseMarkets NewDocumentFromReader html c
  = ([], c ++ [log_Printf ("Error parsing HTML: %v" +:+ nl) [VError err]]).
Proof. intros H. unfold parseMarkets. by rewrite H. Qed.

Lemma teamNames_take (labels : goquery.Selection) :
  teamNames (take 2 labels) = teamNames labels.
Proof. by destruct labels as [|l0 [|l1 rest]]. Qed.

(** C1: a game wrapper that passes the guard on its two team names
    yields one record for each of its buttons, in order: the j-th button
    yields the j-th record, whose bet type is the one at index j mod 3 of
    Spread, Total, Moneyline, and whose side is "over" when j < 3 and
    "under" otherwise.  Every record comes from a button in this way, and a
    wrapper that fails the guard yields none.  So a kept wrapper with six
    buttons yields over/Spread, over/Total, over/Moneyline, under/Spread,
    under/Total, under/Moneyline. *)
Theorem parseMarkets_positional (html : string) (doc : goquery.Node)
        (c : Console) :
  NewDocumentFromReader html = inl doc ->
  (parseMarkets NewDocumentFromReader html c).1
  = flat_map marketsOf (gameWrappers doc)
  /\ forall gameWrapper,
       (kept gameWrapper = true <->
        (teamNames (teamLabels gameWrapper)).1 <> ""
        /\ (teamNames (teamLabels gameWrapper)).2 <> "")
       /\ (kept gameWrapper = false -> marketsOf gameWrapper = [])
       /\ (kept gameWrapper = true ->
           length (marketsOf gameWrapper) = length (buttons gameWrapper)
           /\ forall j button,
                buttons gameWrapper !! j = Some button ->
                exists m,
                  marketsOf gameWrapper !! j = Some m
                  /\ m = buttonMarket (Game m) j button
                  /\ betTypes !! (j mod 3) = Some (BetType m)
                  /\ Side m = sideOf j)
       /\ (forall j m,
             marketsOf gameWrapper !! j = Some m ->
             (exists button,
                buttons gameWrapper !! j = Some button
                /\ m = buttonMarket (Game m) j button)
             /\ betTypes !! (j mod 3) = Some (BetType m)
             /\ Side m = sideOf j)
       /\ (length (buttons gameWrapper) = 6 ->
           kept gameWrapper = true ->
           (fun m => (Side m, BetType m)) <$> marketsOf gameWrapper
           = [("over", "Spread"); ("over", "Total"); ("over", "Moneyline");
              ("under", "Spread"); ("under", "Total"); ("under", "Moneyline")]).
Proof.
  intros Hdoc. split; [by rewrite (parseMarkets_parsed _ _ _ Hdoc)|].
  intros w. split; [apply kept_true|]. split; [|split; [|split]].
  - intros Hk. apply marketsOf_nil_iff. by left.
  - intros Hk. rewrite marketsOf_kept_eq, Hk. cbv iota.
    split; [apply length_imap|].
    intros j button Hb.
    exists (buttonMarket ((teamNames (teamLabels w)).1 +:+ " vs "
                          +:+ (teamNames (teamLabels w)).2) j button).
    split; [|split; [done|split]].
    + rewrite list_lookup_imap. apply fmap_Some. by exists button.
    + apply betTypes_cycle.
    + apply buttonMarket_side.
  - intros j m (button & Hb & ->)%marketsOf_lookup.
    split; [by exists button|]. split.
    + apply betTypes_cycle.
    + apply buttonMarket_side.
  - intros Hsix Hk. rewrite marketsOf_kept_eq, Hk.
    destruct (buttons w) as [|b0 [|b1 [|b2 [|b3 [|b4 [|b5 [|b6 bs]]]]]]];
      try done.
Qed.

(** C5: a game wrapper with fewer than two team labels is skipped and adds
    no record to the result; labels after the second are ignored: wrappers
    that agree on their first two labels and on their buttons yield the
    same records. *)
Theorem parseMarkets_few_labels (html : string) (doc : goquery.Node)
        (c : Console) :
  NewDocumentFromReader html = inl doc ->
  (parseMarkets NewDocumentFromReader html c).1
  = flat_map marketsOf (gameWrappers doc)
  /\ (forall gameWrapper,
        length (teamLabels gameWrapper) < 2 -> marketsOf gameWrapper = [])
  /\ (forall before gameWrapper after,
        gameWrappers doc = before ++ gameWrapper :: after ->
        length (teamLabels gameWrapper) < 2 ->
        (parseMarkets NewDocumentFromReader html c).1
        = flat_map marketsOf (before ++ after))
  /\ (forall w w',
        take 2 (teamLabels w) = take 2 (teamLabels w') ->
        buttons w = buttons w' ->
        marketsOf w = marketsOf w').
Proof.
  intros Hdoc.
  assert (forall w, length (teamLabels w) < 2 -> marketsOf w = []) as Hfew.
  { intros w Hlen. apply marketsOf_skipped.
    destruct (teamLabels w) as [|l0 [|l1 rest]]; simpl in *;
      [by left|by right|lia]. }
  rewrite (parseMarkets_parsed _ _ _ Hdoc). simpl.
  split; [done|]. split; [done|]. split.
  - intros before w after -> Hlen.
    rewrite !flat_map_app. simpl. by rewrite (Hfew w Hlen).
  - intros w w' Hlabels Hbuttons. rewrite !marketsOf_eq.
    by rewrite <- (teamNames_take (teamLabels w)), Hlabels, teamNames_take,
               Hbuttons.
Qed.

(** C6: markup that does not parse is logged and gives the empty
    sequence, a document without game wrapper gives the empty sequence too,
    so the two results do not differ. *)
Theorem parseMarkets_nothing_found (html : string) (c : Console) :
  (forall err,
     NewDocumentFromReader html = inr err ->
     parseMarkets NewDocumentFromReader html c
     = ([], c ++ [log_Printf ("Error parsing HTML: %v" +:+ nl) [VError err]]))
  /\ (forall doc,
        NewDocumentFromReader html = inl doc ->
        gameWrappers doc = [] ->
        parseMarkets NewDocumentFromReader html c = ([], c))
  /\ (forall html' c' err doc,
        NewDocumentFromReader html = inr err ->
        NewDocumentFromReader html' = inl doc ->
        gameWrappers doc = [] ->
        (parseMarkets NewDocumentFromReader html c).1
        = (parseMarkets NewDocumentFromReader html' c').1).
Proof.
  split; [|split].
  - intros err. apply parseMarkets_failed.
  - intros doc Hdoc Hnone. by rewrite (parseMarkets_parsed _ _ _ Hdoc), Hnone.
  - intros html' c' err doc Herr Hdoc Hnone.
    by rewrite (parseMarkets_failed _ _ _ Herr),
               (parseMarkets_parsed _ _ _ Hdoc), Hnone.
Qed.

(** C7: every record of a game wrapper with at least two team labels has
    as its game the trimmed text of the first label, " vs ", and the trimmed
    text of the second; and when both texts are non-empty there is one such
    record for each button of the wrapper. *)
Theorem parseMarkets_game (html : string) (doc : goquery.Node) (c : Console) :
  NewDocumentFromReader html = inl doc ->
  (parseMarkets NewDocumentFromReader html c).1
  = flat_map marketsOf (gameWrappers doc)
  /\ forall gameWrapper l0 l1 rest,
       teamLabels gameWrapper = l0 :: l1 :: rest ->
       (forall m,
          m ∈ marketsOf gameWrapper ->
          Game m = labelText l0 +:+ " vs " +:+ labelText l1)
       /\ (labelText l0 <> "" -> labelText l1 <> "" ->
           Game <$> marketsOf gameWrapper
           = replicate (length (buttons gameWrapper))
                       (labelText l0 +:+ " vs " +:+ labelText l1)).
Proof.
  intros Hdoc. split; [by rewrite (parseMarkets_parsed _ _ _ Hdoc)|].
  intros w l0 l1 rest Hlabels. split.
  - intros m [j Hj]%list_elem_of_lookup.
    apply marketsOf_lookup in Hj as (button & _ & ->).
    by rewrite Hlabels.
  - intros H0 H1. rewrite marketsOf_kept by (by rewrite Hlabels).
    rewrite Hlabels. by apply fmap_Game_imap.
Qed.

Lemma parseTwice_run (html html' : string) (c : Console) :
  parseTwice NewDocumentFromReader html html' c
  = let '(first, c1) := parseMarkets NewDocumentFromReader html c in
    let '(second, c2) := parseMarkets NewDocumentFromReader html' c1 in
    ((first, second), c2).
Proof. reflexivity. Qed.

(** C8: parseMarkets run twice on identical markup, the second run on the
    console the first has left, returns the same sequence both times, in
    the same order: the records of the game wrappers in document order
    when the markup parses, and no record when it does not.  An earlier run
    leaves nothing behind that a later one reads: whatever markup was
    parsed before, and whatever the console holds, a run on this markup
    returns that sequence. *)
Theorem parseMarkets_deterministic (html html' : string) (c : Console) :
  html = html' ->
  (parseTwice NewDocumentFromReader html html' c).1.1
  = (parseTwice NewDocumentFromReader html html' c).1.2
  /\ (forall html0 c0,
        (parseTwice NewDocumentFromReader html0 html' c0).1.2
        = (parseTwice NewDocumentFromReader html html' c).1.1)
  /\ (forall doc,
        NewDocumentFromReader html = inl doc ->
        (parseTwice NewDocumentFromReader html html' c).1
        = (flat_map marketsOf (gameWrappers doc),
           flat_map marketsOf (gameWrappers doc)))
  /\ (forall err,
        NewDocumentFromReader html = inr err ->
        (parseTwice NewDocumentFromReader html html' c).1 = ([], [])).
Proof.
  intros <-.
  assert (forall html0 c0,
            (parseTwice NewDocumentFromReader html0 html c0).1.2
            = (parseMarkets NewDocumentFromReader html c0).1) as Hsecond.
  { intros html0 c0. rewrite parseTwice_run. unfold parseMarkets.
    by destruct (NewDocumentFromReader html0), (NewDocumentFromReader html). }
  assert (forall c0,
            (parseTwice NewDocumentFromReader html html c0).1.1
            = (parseMarkets NewDocumentFromReader html c0).1) as Hfirst.
  { intros c0. rewrite parseTwice_run. unfold parseMarkets.
    by destruct (NewDocumentFromReader html). }
  assert (forall c1 c2,
            (parseMarkets NewDocumentFromReader html c1).1
            = (parseMarkets NewDocumentFromReader html c2).1) as Hconsole.
  { intros c1 c2. unfold parseMarkets.
    by destruct (NewDocumentFromReader html). }
  split; [by rewrite Hsecond, Hfirst|]. split.
  { intros html0 c0. rewrite Hsecond, Hfirst. apply Hconsole. }
  split.
  - intros doc Hdoc. rewrite parseTwice_run.
    rewrite (parseMarkets_parsed _ _ _ Hdoc).
    by rewrite (parseMarkets_parsed _ _ _ Hdoc).
  - intros err Herr. rewrite parseTwice_run.
    rewrite (parseMarkets_failed _ _ _ Herr).
    by rewrite (parseMarkets_failed _ _ _ Herr).
Qed.

(** C10: a game wrapper whose first or second team label has empty
    trimmed text is skipped, two labels or more notwithstanding; with both
    texts non-empty it is not. *)
Theorem parseMarkets_blank_label (html : string) (doc : goquery.Node)
        (c : Console) :
  NewDocumentFromReader html = inl doc ->
  (parseMarkets NewDocumentFromReader html c).1
  = flat_map marketsOf (gameWrappers doc)
  /\ forall gameWrapper l0 l1 rest,
       teamLabels gameWrapper = l0 :: l1 :: rest ->
       (labelText l0 = "" \/ labelText l1 = "" -> marketsOf gameWrapper = [])
       /\ (labelText l0 <> "" -> labelText l1 <> "" ->
           length (marketsOf gameWrapper) = length (buttons gameWrapper)).
Proof.
  intros Hdoc. split; [by rewrite (parseMarkets_parsed _ _ _ Hdoc)|].
  intros w l0 l1 rest Hlabels. split.
  - intros H. apply marketsOf_skipped. by rewrite Hlabels.
  - intros H0 H1. rewrite marketsOf_kept by (by rewrite Hlabels).
    apply length_imap.
Qed.

End ParseMarketsFacts.

(** The theorems above at the sample documents. *)

Lemma parseMarkets_positional_witness :
  (fun m => (Side m, BetType m)) <$> marketsOf Sample.eagles
  = [("over", "Spread"); ("over", "Total"); ("over", "Moneyline");
     ("under", "Spread"); ("under", "Total"); ("under", "Moneyline")]
  /\ exists m,
       marketsOf Sample.eagles !! 4 = Some m
       /\ betTypes !! 1 = Some (BetType m) /\ Side m = "under".
Proof.
  destruct (parseMarkets_positional Sample.reader "<html>" Sample.doc []
              eq_refl) as [_ H].
  destruct (H Sample.eagles) as (_ & _ & Hkept & _ & Hsix).
  split; [by apply Hsix|].
  destruct (Hkept eq_refl) as [_ Hbutton].
  destruct (Hbutton 4 (Sample.button "U 45.5" "-115") eq_refl)
    as (m & Hm & _ & Hbet & Hside).
  by exists m.
Defined.

Lemma parseMarkets_few_labels_witness :
  marketsOf Sample.jets = []
  /\ (parseMarkets Sample.reader "<html>" []).1
     = flat_map marketsOf [Sample.eagles; Sample.bills].
Proof.
  destruct (parseMarkets_few_labels Sample.reader "<html>" Sample.doc []
              eq_refl) as (_ & Hfew & Hout & _).
  split.
  - apply Hfew. vm_compute. lia.
  - apply (Hout [Sample.eagles] Sample.jets [Sample.bills]);
      [reflexivity | vm_compute; lia].
Defined.

Lemma parseMarkets_nothing_found_witness :
  parseMarkets Sample.reader "" []
  = ([], [log_Printf ("Error parsing HTML: %v" +:+ nl)
                     [VError (ReadError "unexpected EOF")]])
  /\ parseMarkets (fun _ => inl Sample.emptyDoc) "<html>" [] = ([], []).
Proof.
  split.
  - apply (proj1 (parseMarkets_nothing_found Sample.reader "" [])
                 (ReadError "unexpected EOF")).
    reflexivity.
  - apply (proj1 (proj2 (parseMarkets_nothing_found
                           (fun _ => inl Sample.emptyDoc) "<html>" []))
                 Sample.emptyDoc); reflexivity.
Defined.

Lemma parseMarkets_game_witness :
  Game <$> marketsOf Sample.eagles = replicate 6 "Eagles vs Cowboys".
Proof.
  destruct (parseMarkets_game Sample.reader "<html>" Sample.doc [] eq_refl)
    as [_ H].
  destruct (H Sample.eagles (Sample.label " Eagles ") (Sample.label "Cowboys")
              [Sample.label "Live"] eq_refl) as [_ Hall].
  apply Hall; by vm_compute.
Defined.

Lemma parseMarkets_deterministic_witness :
  (parseTwice Sample.reader "<html>" "<html>" []).1.1
  = (parseTwice Sample.reader "<html>" "<html>" []).1.2
  /\ (parseTwice Sample.reader "" "<html>" []).1.2
     = (parseTwice Sample.reader "<html>" "<html>" []).1.1
  /\ length (parseTwice Sample.reader "<html>" "<html>" []).1.2 = 6.
Proof.
  destruct (parseMarkets_deterministic Sample.reader "<html>" "<html>" []
              eq_refl) as (Hsame & Hafter & Hdoc & _).
  split; [exact Hsame|]. split; [exact (Hafter "" [])|].
  rewrite (Hdoc Sample.doc eq_refl). vm_compute. reflexivity.
Defined.

Lemma parseMarkets_blank_label_witness :
  length (teamLabels Sample.bills) = 2 /\ marketsOf Sample.bills = [].
Proof.
  split; [reflexivity|].
  destruct (parseMarkets_blank_label Sample.reader "<html>" Sample.doc []
              eq_refl) as [_ H].
  destruct (H Sample.bills (Sample.label "Bills") (Sample.label "  ") []
              eq_refl) as [Hskip _].
  apply Hskip. right. reflexivity.
Defined.

(** ** printMarkets *)

Section ConsoleFacts.

Lemma call_run (e : Call) (c : Console) : call e c = (tt, c ++ [e]).
Proof. reflexivity. Qed.

Lemma bind_run {A B : Type} (m : IO A) (k : A -> IO B) (c : Console) :
  (m ≫= k) c = let '(a, c') := m c in k a c'.
Proof. reflexivity. Qed.

Lemma call_then {B : Type} (e : Call) (k : IO B) (c : Console) :
  (call e ;; k) c = k (c ++ [e]).
Proof. reflexivity. Qed.

(** A loop whose body only prints, prints what its bodies print. *)
Lemma forEach_calls {A : Type} (body : A -> IO unit) (calls : A -> list Call)
      (l : list A) (c : Console) :
  (forall a c, body a c = (tt, c ++ calls a)) ->
  forEach l body c = (tt, c ++ flat_map calls l).
Proof.
  intros Hbody. revert c. induction l as [|a l IH]; intros c; simpl.
  - by rewrite app_nil_r.
  - rewrite bind_run, Hbody, IH. by rewrite <- app_assoc.
Qed.

Lemma flat_map_singleton {A B : Type} (f : A -> B) (l : list A) :
  flat_map (fun a => [f a]) l = f <$> l.
Proof. induction l as [|a l IH]; [done|]. simpl. by rewrite IH. Qed.

Lemma printMarket_run (m : Market) (c : Console) :
  printMarket m c = (tt, c ++ [marketCall m]).
Proof.
  unfold printMarket, marketCall.
  by destruct (F64.eqb (Line m) F64.zero).
Qed.

End ConsoleFacts.

Section GroupFacts.

Lemma recordsOf_cons (g : string) (m : Market) (markets : list Market) :
  recordsOf g (m :: markets)
  = if decide (Game m = g) then m :: recordsOf g markets
    else recordsOf g markets.
Proof. unfold recordsOf. by rewrite filter_cons. Qed.

Lemma recordsOf_nil_iff (g : string) (markets : list Market) :
  recordsOf g markets = [] <-> g ∉ Game <$> markets.
Proof.
  induction markets as [|m markets IH]; simpl.
  - split; [intros _; apply not_elem_of_nil | done].
  - rewrite recordsOf_cons, not_elem_of_cons.
    destruct (decide (Game m = g)) as [<-|Hne].
    + split; [done|]. by intros [? _].
    + rewrite IH. split; [by split|]. by intros [_ ?].
Qed.

Lemma fold_group_lookup (markets : list Market)
      (gameMap : gmap string (list Market)) (g : string) :
  fold_left (fun gameMap m =>
               <[Game m := default [] (gameMap !! Game m) ++ [m]]> gameMap)
            markets gameMap !! g
  = match recordsOf g markets with
    | [] => gameMap !! g
    | ms => Some (default [] (gameMap !! g) ++ ms)
    end.
Proof.
  revert gameMap. induction markets as [|m markets IH]; intros gameMap; [done|].
  simpl. rewrite IH, recordsOf_cons.
  destruct (decide (Game m = g)) as [<-|Hne].
  - rewrite lookup_insert_eq. simpl.
    destruct (recordsOf (Game m) markets); [done|].
    by rewrite <- app_assoc.
  - by rewrite lookup_insert_ne.
Qed.

(** The map sends each game that occurs to its records, in the order of
    extraction, and holds no other key. *)
Lemma groupByGame_lookup (markets : list Market) (g : string)
      (ms : list Market) :
  groupByGame markets !! g = Some ms <-> ms = recordsOf g markets /\ ms <> [].
Proof.
  unfold groupByGame. rewrite fold_group_lookup, lookup_empty. simpl.
  destruct (recordsOf g markets) as [|m ms'].
  - split; [done|]. by intros [-> ?].
  - split; [by intros [= <-]|]. by intros [-> _].
Qed.

Lemma groupByGame_keys (markets : list Market) :
  (map_to_list (groupByGame markets)).*1 ≡ₚ remove_dups (Game <$> markets).
Proof.
  apply NoDup_Permutation.
  - apply NoDup_fst_map_to_list.
  - apply NoDup_remove_dups.
  - intros g. rewrite elem_of_remove_dups. split.
    + intros [[g' ms] [-> Hin]]%list_elem_of_fmap. simpl.
      apply elem_of_map_to_list, groupByGame_lookup in Hin as [-> Hne].
      destruct (decide (g' ∈ Game <$> markets)) as [|Hnot]; [done|].
      by apply recordsOf_nil_iff in Hnot.
    + intros Hin. apply list_elem_of_fmap.
      exists (g, recordsOf g markets). split; [done|].
      apply elem_of_map_to_list, groupByGame_lookup. split; [done|].
      intros Hnil%recordsOf_nil_iff. done.
Qed.

End GroupFacts.

Section PrintMarketsFacts.

Variable rangeOrder :
  gmap string (list Market) -> list (string * list Market).
Hypothesis rangeOrder_perm : forall m, rangeOrder m ≡ₚ map_to_list m.

Lemma printMarkets_run (markets : list Market) (c : Console) :
  markets <> [] ->
  printMarkets rangeOrder markets c
  = (tt, c ++ headerCall (length markets)
              :: flat_map entryBlock (rangeOrder (groupByGame markets))).
Proof.
  intros Hne. unfold printMarkets.
  destruct markets as [|m0 markets']; [done|].
  set (markets := m0 :: markets'). simpl (length markets =? 0)%nat. cbv iota.
  rewrite call_then.
  rewrite (forEach_calls _ entryBlock).
  - by rewrite <- app_assoc.
  - intros [game gameMarkets] c'.
    rewrite !call_then, bind_run.
    rewrite (forEach_calls _ (fun m => [marketCall m]))
      by apply printMarket_run.
    rewrite call_run, flat_map_singleton. unfold entryBlock. simpl.
    by rewrite <- !app_assoc.
Qed.

Lemma rangeOrder_entries (markets : list Market) :
  flat_map entryBlock (rangeOrder (groupByGame markets))
  = flat_map (gameBlock markets) (rangeOrder (groupByGame markets)).*1.
Proof.
  assert (Forall (fun entry => entry.2 = recordsOf entry.1 markets)
                 (rangeOrder (groupByGame markets))) as Hall.
  { apply Forall_forall. intros [g ms] Hin. simpl.
    rewrite rangeOrder_perm in Hin.
    by apply elem_of_map_to_list, groupByGame_lookup in Hin as [-> _]. }
  induction Hall as [|[g ms] entries Hentry _ IH]; [done|].
  simpl in *. rewrite IH. unfold entryBlock, gameBlock. simpl. by rewrite Hentry.
Qed.

Lemma marketCall_in_block (markets : list Market) (m : Market) :
  m ∈ markets -> marketCall m ∈ gameBlock markets (Game m).
Proof.
  intros Hm. unfold gameBlock.
  rewrite !elem_of_app. right. left.
  apply list_elem_of_fmap. exists m. split; [done|].
  unfold recordsOf. by apply list_elem_of_filter.
Qed.

Lemma noMarketsCall_not_in_block (markets : list Market) (games : list string) :
  noMarketsCall ∉ flat_map (gameBlock markets) games.
Proof.
  rewrite list_elem_of_In, in_flat_map. intros (g & _ & Hin).
  apply list_elem_of_In in Hin. unfold gameBlock in Hin.
  rewrite !elem_of_app, !elem_of_cons, list_elem_of_fmap in Hin.
  destruct Hin as [[|[|[]%elem_of_nil]]|[(m & Hm & _)|[|[]%elem_of_nil]]];
    try done.
Qed.

(** C9: the report is the single line "No markets found" when there is
    no record, and holds that line in no other case; otherwise it is a
    header followed by one block for each game that occurs, in the order
    the map happens to be visited, and the block of a game lists the
    records of that game, each with its bet type, its side, its line when
    the line is not zero, and its odds under a signed verb. *)
Theorem printMarkets_report (markets : list Market) (c : Console) :
  exists report,
    printMarkets rangeOrder markets c = (tt, c ++ report)
    /\ (noMarketsCall ∈ report <-> markets = [])
    /\ (markets = [] -> report = [noMarketsCall])
    /\ (markets <> [] ->
        exists games,
          games ≡ₚ remove_dups (Game <$> markets)
          /\ report = headerCall (length markets)
                      :: flat_map (gameBlock markets) games
          /\ Forall (fun m => marketCall m ∈ gameBlock markets (Game m)
                              /\ Game m ∈ games) markets).
Proof.
  destruct markets as [|m0 markets'].
  - exists [noMarketsCall]. split; [done|]. split; [|done].
    split; [done|]. intros _. by apply list_elem_of_singleton.
  - set (markets := m0 :: markets').
    set (games := (rangeOrder (groupByGame markets)).*1).
    exists (headerCall (length markets) :: flat_map (gameBlock markets) games).
    split; [|split; [|split]].
    + rewrite printMarkets_run by done. by rewrite rangeOrder_entries.
    + split; [|done]. intros [|Hin]%elem_of_cons; [done|].
      by apply noMarketsCall_not_in_block in Hin.
    + done.
    + intros _.
      assert (games ≡ₚ remove_dups (Game <$> markets)) as Hgames.
      { unfold games. rewrite rangeOrder_perm. apply groupByGame_keys. }
      exists games. split; [done|]. split; [done|].
      apply Forall_forall. intros m Hm. split.
      * by apply marketCall_in_block.
      * rewrite Hgames. apply elem_of_remove_dups, list_elem_of_fmap. eauto.
Qed.

End PrintMarketsFacts.

Lemma printMarkets_report_witness :
  (printMarkets map_to_list [] []).2 = [noMarketsCall]
  /\ noMarketsCall ∉ (printMarkets map_to_list Sample.markets []).2.
Proof.
  split.
  - destruct (printMarkets_report map_to_list (fun m => reflexivity _) [] [])
      as (report & Hrun & _ & Hnone & _).
    rewrite Hrun. simpl. by apply Hnone.
  - destruct (printMarkets_report map_to_list (fun m => reflexivity _)
                Sample.markets [])
      as (report & Hrun & Hiff & _).
    rewrite Hrun. simpl. by intros Hin%Hiff.
Defined.

(** ** Worked examples *)

(** 0.1 is no binary fraction: the nearest float64 is
    7205759403792794 * 2^-56. *)
Example ParseFloat_tenth :
  strconv.ParseFloat "0.1" = (S754_finite false 7205759403792794 (-56), None).
Proof. reflexivity. Qed.

Example ParseFloat_forms :
  strconv.ParseFloat "1_000" = (F64.ofZ 1000, None)
  /\ strconv.ParseFloat "1.5E2" = (F64.ofZ 150, None)
  /\ strconv.ParseFloat "0x1p+4" = (F64.ofZ 16, None)
  /\ strconv.ParseFloat "-Infinity" = (S754_infinity true, None)
  /\ strconv.ParseFloat "1e999"
     = (S754_infinity false, Some (NumError "ParseFloat" "1e999" ErrRange))
  /\ strconv.ParseFloat "1e"
     = (F64.zero, Some (NumError "ParseFloat" "1e" ErrSyntax)).
Proof. vm_compute. repeat split. Qed.

(** The sign ParseFloat reads itself is negated like any other value; a
    value out of range is an error and so 0.0; the text of a total such as
    "O 45.5" is no number. *)
Example parseOdds_corners :
  parseOdds "--5" = F64.ofZ 5
  /\ parseOdds "-+5" = F64.ofZ (-5)
  /\ parseOdds ("-" +:+ unicodeMinus +:+ "5") = F64.ofZ (-5)
  /\ parseOdds "-0" = S754_zero true
  /\ parseOdds "1e999" = F64.zero
  /\ parseOdds "O 45.5" = F64.zero
  /\ parseOdds "  +150 " = F64.ofZ 150.
Proof. vm_compute. repeat split. Qed.

(** Of the three sample wrappers only the first is kept. *)
Example parseMarkets_sample :
  (fun m => (Game m, Side m, BetType m, Odds m))
    <$> (parseMarkets Sample.reader "<html>" []).1
  = [("Eagles vs Cowboys", "over", "Spread", F64.ofZ (-110));
     ("Eagles vs Cowboys", "over", "Total", F64.ofZ (-105));
     ("Eagles vs Cowboys", "over", "Moneyline", F64.ofZ 150);
     ("Eagles vs Cowboys", "under", "Spread", F64.ofZ (-110));
     ("Eagles vs Cowboys", "under", "Total", F64.ofZ (-115));
     ("Eagles vs Cowboys", "under", "Moneyline", F64.ofZ (-180))].
Proof. vm_compute. reflexivity. Qed.

(** Two games: each has its block, and the records of the first, which
    are not adjacent in the input, stand together. *)
Example printMarkets_sample :
  (printMarkets map_to_list Sample.markets []).2
  = headerCall 3
    :: gameBlock Sample.markets "Eagles vs Cowboys"
    ++ gameBlock Sample.markets "Jets vs Bills".
Proof. vm_compute. reflexivity. Qed.

(** * Further properties *)

Lemma string_length_ind (P : string -> Prop) :
  (forall s, (forall t, String.length t < String.length s -> P t) -> P s) ->
  forall s, P s.
Proof.
  intros H s. remember (String.length s) as n eqn:Hn. revert s Hn.
  induction n as [n IH] using lt_wf_ind. intros s ->.
  apply H. intros t Ht. by apply (IH (String.length t)).
Qed.

Lemma trimLeft_fixed (s : string) :
  leadsWithSpace s = false -> strings.trimLeft s = s.
Proof.
  destruct s as [|b0 [|b1 [|b2 s3]]]; simpl; try done.
  - by intros ->%orb_false_elim%proj1.
  - intros [-> [-> _]%orb_false_elim]%orb_false_elim. done.
  - intros [-> [-> ->]%orb_false_elim]%orb_false_elim. done.
Qed.

Lemma trimLeft_no_space (s : string) : leadsWithSpace (strings.trimLeft s) = false.
Proof.
  induction s as [s IH] using string_length_ind.
  destruct s as [|b0 s1]; [done|]. simpl.
  destruct (strings.asciiSpace b0) eqn:H0; [apply IH; simpl; lia|].
  destruct s1 as [|b1 s2]; [by simpl; rewrite H0|].
  destruct (strings.space2 b0 b1) eqn:H1; [apply IH; simpl; lia|].
  destruct s2 as [|b2 s3]; [by simpl; rewrite H0, H1|].
  destruct (strings.space3 b0 b1 b2) eqn:H2; [apply IH; simpl; lia|].
  simpl. by rewrite H0, H1, H2.
Qed.

Lemma trimLeftRev_fixed (r : string) :
  leadsWithSpaceRev r = false -> strings.trimLeftRev r = r.
Proof.
  destruct r as [|b0 [|b1 [|b2 r3]]]; simpl; try done.
  - by intros ->%orb_false_elim%proj1.
  - intros [-> [-> _]%orb_false_elim]%orb_false_elim. done.
  - intros [-> [-> ->]%orb_false_elim]%orb_false_elim. done.
Qed.

Lemma trimLeftRev_no_space (r : string) :
  leadsWithSpaceRev (strings.trimLeftRev r) = false.
Proof.
  induction r as [r IH] using string_length_ind.
  destruct r as [|b0 r1]; [done|]. simpl.
  destruct (strings.asciiSpace b0) eqn:H0; [apply IH; simpl; lia|].
  destruct r1 as [|b1 r2]; [by simpl; rewrite H0|].
  destruct (strings.space2 b1 b0) eqn:H1; [apply IH; simpl; lia|].
  destruct r2 as [|b2 r3]; [by simpl; rewrite H0, H1|].
  destruct (strings.space3 b2 b1 b0) eqn:H2; [apply IH; simpl; lia|].
  simpl. by rewrite H0, H1, H2.
Qed.

(** What [trimLeftRev] returns is a suffix of its argument. *)
Lemma trimLeftRev_suffix (r : string) :
  exists x, r = x +:+ strings.trimLeftRev r.
Proof.
  induction r as [r IH] using string_length_ind.
  destruct r as [|b0 r1]; [by exists ""|]. simpl.
  destruct (strings.asciiSpace b0).
  { destruct (IH r1) as [x Hx]; [simpl; lia|].
    exists (String b0 x). rewrite append_cons. by rewrite <- Hx. }
  destruct r1 as [|b1 r2]; [by exists ""|].
  destruct (strings.space2 b1 b0).
  { destruct (IH r2) as [x Hx]; [simpl; lia|].
    exists (String b0 (String b1 x)). rewrite !append_cons. by rewrite <- Hx. }
  destruct r2 as [|b2 r3]; [by exists ""|].
  destruct (strings.space3 b2 b1 b0); [|by exists ""].
  destruct (IH r3) as [x Hx]; [simpl; lia|].
  exists (String b0 (String b1 (String b2 x))). rewrite !append_cons.
  by rewrite <- Hx.
Qed.

Lemma leadsWithSpace_prefix (u y : string) :
  leadsWithSpace (u +:+ y) = false -> leadsWithSpace u = false.
Proof.
  destruct u as [|b0 [|b1 [|b2 u3]]]; rewrite ?append_cons; try done.
  - change ("" +:+ y) with y. simpl.
    intros [-> _]%orb_false_elim. done.
  - change ("" +:+ y) with y. simpl.
    intros [-> [-> _]%orb_false_elim]%orb_false_elim. done.
Qed.

Lemma append_assoc (a b c : string) : (a +:+ b) +:+ c = a +:+ (b +:+ c).
Proof. induction a as [|x a IH]; [done|]. rewrite !append_cons. by rewrite IH. Qed.

Lemma append_nil_r (a : string) : a +:+ "" = a.
Proof. induction a as [|x a IH]; [done|]. rewrite append_cons. by rewrite IH. Qed.

Lemma rev_app_spec (s acc : string) :
  String.rev_app s acc = String.rev s +:+ acc.
Proof.
  unfold String.rev. revert acc. induction s as [|a s IH]; intros acc; [done|].
  simpl. rewrite (IH (String a "")), IH. by rewrite append_assoc.
Qed.

Lemma rev_cons (a : ascii) (s : string) :
  String.rev (String a s) = String.rev s +:+ String a "".
Proof. unfold String.rev at 1. simpl. apply rev_app_spec. Qed.

Lemma rev_append (a b : string) :
  String.rev (a +:+ b) = String.rev b +:+ String.rev a.
Proof.
  induction a as [|x a IH].
  - change ("" +:+ b) with b. by rewrite append_nil_r.
  - rewrite append_cons, !rev_cons, IH. by rewrite append_assoc.
Qed.

Lemma rev_involutive (s : string) : String.rev (String.rev s) = s.
Proof.
  induction s as [|a s IH]; [done|].
  rewrite rev_cons, rev_append, IH. done.
Qed.

(** [trimRight] cuts a suffix. *)
Lemma trimRight_prefix (t : string) :
  exists y, t = strings.trimRight t +:+ y.
Proof.
  unfold strings.trimRight.
  destruct (trimLeftRev_suffix (String.rev t)) as [x Hx].
  exists (String.rev x).
  rewrite <- rev_append, <- Hx. by rewrite rev_involutive.
Qed.

Lemma trimLeft_idem (s : string) :
  strings.trimLeft (strings.trimLeft s) = strings.trimLeft s.
Proof. apply trimLeft_fixed, trimLeft_no_space. Qed.

Lemma trimRight_idem (s : string) :
  strings.trimRight (strings.trimRight s) = strings.trimRight s.
Proof.
  unfold strings.trimRight. rewrite rev_involutive.
  by rewrite (trimLeftRev_fixed _ (trimLeftRev_no_space _)).
Qed.

(** Trimmed text starts and ends with no white space: trimming it again
    changes nothing. *)
Lemma TrimSpace_idem (s : string) :
  strings.TrimSpace (strings.TrimSpace s) = strings.TrimSpace s.
Proof.
  unfold strings.TrimSpace.
  destruct (trimRight_prefix (strings.trimLeft s)) as [y Hy].
  rewrite (trimLeft_fixed (strings.trimRight (strings.trimLeft s))).
  - apply trimRight_idem.
  - apply (leadsWithSpace_prefix _ y). rewrite <- Hy. apply trimLeft_no_space.
Qed.

Lemma numericText_TrimSpace (s : string) :
  numericText (strings.TrimSpace s) = numericText s.
Proof. unfold numericText. by rewrite TrimSpace_idem. Qed.


Lemma trimLeft_whitespace_prefix (ws s : string) :
  whitespaceOnly ws -> strings.trimLeft (ws +:+ s) = strings.trimLeft s.
Proof.
  induction 1 as [|r ws Hr _ IH]; [done|].
  by rewrite append_assoc, trimLeft_spaceRune.
Qed.

Lemma parseOdds_of_trimmed (s s' : string) :
  strings.TrimSpace s = strings.TrimSpace s' -> parseOdds s = parseOdds s'.
Proof.
  intros H. rewrite !parseOdds_unfold. unfold numericText. by rewrite H.
Qed.

(** X1: white space around the text does not change what parseOdds
    returns: it returns for a text what it returns for the trimmed text, and
    for a text behind any run of white-space runes what it returns for the
    text. *)
Theorem parseOdds_surrounding_space (s : string) :
  parseOdds (strings.TrimSpace s) = parseOdds s
  /\ forall ws, whitespaceOnly ws -> parseOdds (ws +:+ s) = parseOdds s.
Proof.
  split.
  - apply parseOdds_of_trimmed, TrimSpace_idem.
  - intros ws Hws. apply parseOdds_of_trimmed. unfold strings.TrimSpace.
    by rewrite trimLeft_whitespace_prefix.
Qed.

Lemma TrimPrefix_app (p t : string) : strings.TrimPrefix (p +:+ t) p = t.
Proof.
  destruct (TrimPrefix_cases (p +:+ t) p) as [[_ E]|[H _]].
  - by apply (inj (String.app p)) in E.
  - exfalso. revert H. clear. induction p as [|d p IH].
    + by rewrite HasPrefix_empty.
    + rewrite append_cons, HasPrefix_cons, Ascii.eqb_refl. done.
Qed.

Lemma HasPrefix_app_self (p t : string) : strings.HasPrefix (p +:+ t) p = true.
Proof.
  induction p as [|d p IH]; [apply HasPrefix_empty|].
  by rewrite append_cons, HasPrefix_cons, Ascii.eqb_refl.
Qed.

Lemma TrimPrefix_absent (t p : string) :
  strings.HasPrefix t p = false -> strings.TrimPrefix t p = t.
Proof. intros H. unfold strings.TrimPrefix. by rewrite H. Qed.

Lemma startsWithMarker_false (u : string) :
  startsWithMarker u = false ->
  strings.HasPrefix u "+" = false /\ strings.HasPrefix u "-" = false
  /\ strings.HasPrefix u unicodeMinus = false.
Proof.
  unfold startsWithMarker.
  by intros [[-> ->]%orb_false_elim ->]%orb_false_elim.
Qed.

(** Text without marker goes to the conversion as it is. *)
Lemma parseOdds_unsigned (s u : string) :
  strings.TrimSpace s = u -> startsWithMarker u = false ->
  parseOdds s =
    if String.eqb u "" then F64.zero else
    match strconv.ParseFloat u with
    | (_, Some _) => F64.zero
    | (val, None) => val
    end.
Proof.
  intros Hs (Hp & Hh & Hm)%startsWithMarker_false.
  rewrite parseOdds_unfold. unfold numericText. rewrite Hs.
  rewrite (TrimPrefix_absent u "+"), (TrimPrefix_absent u "-"),
    (TrimPrefix_absent u unicodeMinus) by done.
  by rewrite Hh, Hm.
Qed.

Lemma ParseFloat_empty : (strconv.ParseFloat "").2 <> None.
Proof. done. Qed.

(** Text behind one marker [m]: the marker is cut and the rest converted. *)
Lemma parseOdds_signed (s m u : string) :
  m ∈ signMarkers -> strings.TrimSpace s = m +:+ u ->
  startsWithMarker u = false ->
  parseOdds s =
    match strconv.ParseFloat u with
    | (_, Some _) => F64.zero
    | (val, None) =>
        if bool_decide (m ∈ negativityMarkers) then F64.neg val else val
    end.
Proof.
  intros Hm Hs (Hp & Hh & Hu)%startsWithMarker_false.
  rewrite parseOdds_unfold. unfold numericText. rewrite Hs.
  unfold signMarkers in Hm.
  repeat (apply elem_of_cons in Hm as [->|Hm]); [| | |by apply elem_of_nil in Hm].
  - rewrite (TrimPrefix_app "+"), (TrimPrefix_absent u "-"),
      (TrimPrefix_absent u unicodeMinus) by done.
    rewrite isMinus_plus. rewrite append_cons. simpl (String.eqb _ _). done.
  - rewrite (TrimPrefix_absent _ "+") by (by rewrite append_cons, HasPrefix_cons).
    rewrite (TrimPrefix_app "-"), (TrimPrefix_absent u unicodeMinus) by done.
    rewrite HasPrefix_app_self. rewrite append_cons. simpl (String.eqb _ _). done.
  - unfold unicodeMinus at 1 2 3 5.
    rewrite (TrimPrefix_absent _ "+") by (by rewrite append_cons, HasPrefix_cons).
    rewrite (TrimPrefix_absent _ "-") by (by rewrite append_cons, HasPrefix_cons).
    fold unicodeMinus.
    rewrite (TrimPrefix_app unicodeMinus).
    rewrite HasPrefix_app_self, orb_true_r.
    unfold unicodeMinus. rewrite append_cons. simpl (String.eqb _ _). done.
Qed.

Lemma leadsWithSpaceRev_prefix (u y : string) :
  leadsWithSpaceRev (u +:+ y) = false -> leadsWithSpaceRev u = false.
Proof.
  destruct u as [|b0 [|b1 [|b2 u3]]]; rewrite ?append_cons; try done.
  - change ("" +:+ y) with y. simpl.
    intros [-> _]%orb_false_elim. done.
  - change ("" +:+ y) with y. simpl.
    intros [-> [-> _]%orb_false_elim]%orb_false_elim. done.
Qed.

(** What is left of trimmed text behind a prefix ends with no white space;
    if it starts with none either, trimming does not change it. *)
Lemma TrimSpace_tail (s p u : string) :
  strings.TrimSpace s = p +:+ u -> leadsWithSpace u = false ->
  strings.TrimSpace u = u.
Proof.
  intros Hs Hu. unfold strings.TrimSpace in *.
  rewrite (trimLeft_fixed u Hu). unfold strings.trimRight in *.
  rewrite trimLeftRev_fixed; [apply rev_involutive|].
  apply (leadsWithSpaceRev_prefix _ (String.rev p)).
  rewrite <- rev_append, <- Hs, rev_involutive.
  apply trimLeftRev_no_space.
Qed.

Lemma isByte_outside (c : ascii) (n : Z) :
  byteVal c <> n -> strconv.isByte c n = false.
Proof. intros H. by apply Z.eqb_neq. Qed.

(** The first byte of a white-space rune. *)
Lemma leadsWithSpace_first (b0 : ascii) (s1 : string) :
  leadsWithSpace (String b0 s1) = true ->
  (9 <= byteVal b0 <= 13 \/ byteVal b0 = 32 \/ 194 <= byteVal b0 <= 239)%Z.
Proof.
  cbn [leadsWithSpace]. intros [H|H]%orb_prop.
  - unfold strings.asciiSpace in H. apply orb_prop in H as [H|H].
    + apply inRange_bounds in H. lia.
    + apply Z.eqb_eq in H. lia.
  - destruct s1 as [|b1 s2]; [done|]. apply orb_prop in H as [H|H].
    + unfold strings.space2 in H.
      apply andb_prop in H as [[H _]%andb_prop _].
      apply inRange_bounds in H. lia.
    + destruct s2 as [|b2 s3]; [done|]. unfold strings.space3 in H.
      do 5 (apply andb_prop in H as [H _]).
      apply inRange_bounds in H. lia.
Qed.

(** strconv.ParseFloat reads no white space: text that starts with some is
    a syntax error. *)
Lemma ParseFloat_leading_space (u : string) :
  leadsWithSpace u = true ->
  strconv.ParseFloat u
  = (F64.zero, Some (NumError "ParseFloat" u ErrSyntax)).
Proof.
  destruct u as [|b0 s1]; [done|]. intros Hb%leadsWithSpace_first.
  assert (forall n, (n = 43 \/ n = 45 \/ n = 46 \/ n = 48 \/ n = 73 \/ n = 78
                     \/ n = 95 \/ n = 105 \/ n = 110)%Z ->
                    strconv.isByte b0 n = false) as Hn
    by (intros n Hn; apply isByte_outside; lia).
  assert (strconv.isDigit b0 = false) as Hd.
  { unfold strconv.isDigit.
    destruct (inRange 48 57 b0) eqn:E; [|done].
    apply inRange_bounds in E. lia. }
  unfold strconv.ParseFloat, strconv.special, strconv.readFloat.
  rewrite !Hn by lia. cbv beta iota zeta. cbn [orb].
  assert (match s1 with
          | String x (String _ _) =>
              false && strconv.isByte (strconv.lower x) 120
          | _ => false
          end = false) as ->.
  { by destruct s1 as [|x [|y s3]]. }
  cbv beta iota zeta. cbn [strconv.scanDigits].
  rewrite !Hn by lia. rewrite Hd. done.
Qed.

(** X2: a leading plus sign is ignored: when the trimmed text is a plus
    sign followed by text that starts with neither a sign marker nor white
    space, parseOdds returns what it returns for that text alone.  A plus
    sign followed by white space gives 0.0: the white space behind the sign
    is not trimmed, and the conversion rejects it. *)
Theorem parseOdds_plus_ignored (s u : string) :
  strings.TrimSpace s = "+" +:+ u ->
  startsWithMarker u = false ->
  (leadsWithSpace u = false -> parseOdds s = parseOdds u)
  /\ (leadsWithSpace u = true -> parseOdds s = F64.zero).
Proof.
  intros Hs Hu. rewrite (parseOdds_signed s "+" u) by set_solver.
  split; intros Hsp.
  - rewrite (parseOdds_unsigned u u) by (done || by eapply TrimSpace_tail).
    destruct (String.eqb_spec u "") as [->|_]; [done|].
    by destruct (strconv.ParseFloat u) as [val [e|]].
  - by rewrite ParseFloat_leading_space.
Qed.

Lemma parseOdds_plus_ignored_witness :
  parseOdds " +150 " = parseOdds "150" /\ parseOdds "+ 5" = F64.zero.
Proof.
  split.
  - apply (parseOdds_plus_ignored " +150 " "150"); reflexivity.
  - apply (parseOdds_plus_ignored "+ 5" " 5"); reflexivity.
Defined.

(** X3: the hyphen and U+2212 are interchangeable: in front of the same
    text, which starts with no sign marker, both give the same value.  When
    the text starts with no white space either, that value is the negation
    of the value of the text alone when the text converts, and +0.0, not
    -0.0, when it does not; behind a minus sign followed by white space it
    is +0.0. *)
Theorem parseOdds_minus_signs (s1 s2 u : string) :
  strings.TrimSpace s1 = "-" +:+ u ->
  strings.TrimSpace s2 = unicodeMinus +:+ u ->
  startsWithMarker u = false ->
  parseOdds s1 = parseOdds s2
  /\ (leadsWithSpace u = false ->
      parseOdds s1 =
        match (strconv.ParseFloat u).2 with
        | None => F64.neg (parseOdds u)
        | Some _ => F64.zero
        end)
  /\ (leadsWithSpace u = true -> parseOdds s1 = F64.zero).
Proof.
  intros H1 H2 Hu.
  rewrite (parseOdds_signed s1 "-" u), (parseOdds_signed s2 unicodeMinus u)
    by set_solver.
  split; [done|]. split; intros Hsp.
  - rewrite (parseOdds_unsigned u u) by (done || by eapply TrimSpace_tail).
    destruct (String.eqb_spec u "") as [->|_]; [done|].
    by destruct (strconv.ParseFloat u) as [val [e|]].
  - by rewrite ParseFloat_leading_space.
Qed.

Lemma parseOdds_minus_signs_witness :
  parseOdds "-110" = parseOdds (unicodeMinus +:+ "110")
  /\ parseOdds "-110" = F64.neg (parseOdds "110")
  /\ parseOdds "- 5" = F64.zero
  /\ parseOdds "-abc" = F64.zero.
Proof.
  destruct (parseOdds_minus_signs "-110" (unicodeMinus +:+ "110") "110"
              eq_refl eq_refl eq_refl) as (Hsame & Hneg & _).
  split; [exact Hsame|]. split; [exact (Hneg eq_refl)|]. split.
  - apply (parseOdds_minus_signs "- 5" (unicodeMinus +:+ " 5") " 5");
      reflexivity.
  - apply (proj1 (proj2 (parseOdds_minus_signs "-abc" (unicodeMinus +:+ "abc")
                           "abc" eq_refl eq_refl eq_refl))).
    reflexivity.
Defined.

Lemma TrimSpace_labelText (l : goquery.Node) :
  strings.TrimSpace (labelText l) = labelText l.
Proof. apply TrimSpace_idem. Qed.

Lemma teamNames_trimmed (labels : goquery.Selection) :
  strings.TrimSpace (teamNames labels).1 = (teamNames labels).1
  /\ strings.TrimSpace (teamNames labels).2 = (teamNames labels).2.
Proof.
  destruct labels as [|l0 [|l1 rest]]; simpl; split;
    try done; apply TrimSpace_labelText.
Qed.

Lemma marketsOf_elem (w : goquery.Node) (m : Market) :
  m ∈ marketsOf w ->
  kept w = true
  /\ exists j button,
       buttons w !! j = Some button
       /\ m = buttonMarket ((teamNames (teamLabels w)).1 +:+ " vs "
                            +:+ (teamNames (teamLabels w)).2) j button.
Proof.
  rewrite marketsOf_kept_eq. destruct (kept w); [|by intros ?%elem_of_nil].
  intros [j Hj]%list_elem_of_lookup. split; [done|].
  rewrite list_lookup_imap in Hj.
  apply fmap_Some in Hj as (button & Hb & ->). eauto.
Qed.

Lemma parseMarkets_elem (NewDocumentFromReader : string -> goquery.Node + error)
      (html : string) (c : Console) (m : Market) :
  m ∈ (parseMarkets NewDocumentFromReader html c).1 ->
  exists doc w,
    NewDocumentFromReader html = inl doc
    /\ w ∈ gameWrappers doc /\ m ∈ marketsOf w.
Proof.
  destruct (NewDocumentFromReader html) as [doc|err] eqn:Hdoc.
  - rewrite (parseMarkets_parsed _ _ _ _ Hdoc). simpl.
    rewrite list_elem_of_In, in_flat_map.
    intros (w & Hw & Hm). exists doc, w.
    by rewrite !list_elem_of_In.
  - rewrite (parseMarkets_failed _ _ _ _ Hdoc). by intros ?%elem_of_nil.
Qed.

Lemma length_flat_map_marketsOf (ws : goquery.Selection) :
  length (flat_map marketsOf ws)
  = sum_list ((fun w => if kept w then length (buttons w) else 0) <$> ws).
Proof.
  induction ws as [|w ws IH]; [done|]. simpl.
  rewrite length_app, IH, marketsOf_kept_eq.
  destruct (kept w); [by rewrite length_imap|done].
Qed.

Section RecordFacts.

Variable NewDocumentFromReader : string -> goquery.Node + error.

(** X4: nothing in the result is invented: every record comes from a
    button of a game wrapper of the parsed document, its line and odds are
    parseOdds of the text under the button's points and odds nodes, and a
    button without points node (or odds node) gets line (odds) 0.0 and is
    reported without a line. *)
Theorem parseMarkets_provenance (html : string) (c : Console) (m : Market) :
  m ∈ (parseMarkets NewDocumentFromReader html c).1 ->
  exists doc gameWrapper j button,
    NewDocumentFromReader html = inl doc
    /\ gameWrapper ∈ gameWrappers doc
    /\ buttons gameWrapper !! j = Some button
    /\ Line m = parseOdds (goquery.Text
                 (goquery.Find button ".cb-market__button-points"))
    /\ Odds m = parseOdds (goquery.Text
                 (goquery.Find button ".cb-market__button-odds"))
    /\ (goquery.Find button ".cb-market__button-points" = [] ->
        Line m = F64.zero
        /\ marketCall m
           = fmt_Printf noLineFormat
               [VString (BetType m); VString (Side m); VFloat (Odds m)])
    /\ (goquery.Find button ".cb-market__button-odds" = [] ->
        Odds m = F64.zero).
Proof.
  intros (doc & w & Hdoc & Hw & Hm)%parseMarkets_elem.
  apply marketsOf_elem in Hm as (_ & j & button & Hb & ->).
  exists doc, w, j, button. repeat (split; [done|]).
  unfold marketCall, buttonMarket. cbn [Line Odds BetType Side].
  split; intros ->; done.
Qed.

(** X5: every record parseMarkets returns is well formed: its side is
    "over" or "under", its bet type one of betTypes, and its game two
    non-empty team names, free of surrounding white space, around " vs ". *)
Theorem parseMarkets_records_wellformed (html : string) (c : Console)
        (m : Market) :
  m ∈ (parseMarkets NewDocumentFromReader html c).1 ->
  Side m ∈ ["over"; "under"]
  /\ BetType m ∈ betTypes
  /\ exists teamA teamB,
       Game m = teamA +:+ " vs " +:+ teamB
       /\ teamA <> "" /\ teamB <> ""
       /\ strings.TrimSpace teamA = teamA
       /\ strings.TrimSpace teamB = teamB.
Proof.
  intros (doc & w & Hdoc & Hw & Hm)%parseMarkets_elem.
  apply marketsOf_elem in Hm as ([Ha Hb]%kept_true & j & button & _ & ->).
  split; [|split].
  - rewrite buttonMarket_side. unfold sideOf.
    destruct (j <? 3)%nat; set_solver.
  - apply list_elem_of_lookup. exists (j mod 3). apply betTypes_cycle.
  - exists (teamNames (teamLabels w)).1, (teamNames (teamLabels w)).2.
    destruct (teamNames_trimmed (teamLabels w)). done.
Qed.

(** X6: parseMarkets returns as many records as the wrappers that pass
    the guard on team names have buttons; when every wrapper passes and has
    six buttons, six times the number of wrappers. *)
Theorem parseMarkets_count (html : string) (doc : goquery.Node) (c : Console) :
  NewDocumentFromReader html = inl doc ->
  length (parseMarkets NewDocumentFromReader html c).1
  = sum_list ((fun w => if kept w then length (buttons w) else 0)
                <$> gameWrappers doc)
  /\ (Forall (fun w => kept w = true /\ length (buttons w) = 6)
             (gameWrappers doc) ->
      length (parseMarkets NewDocumentFromReader html c).1
      = 6 * length (gameWrappers doc)).
Proof.
  intros Hdoc. rewrite (parseMarkets_parsed _ _ _ _ Hdoc). simpl.
  split; [apply length_flat_map_marketsOf|].
  rewrite length_flat_map_marketsOf.
  induction 1 as [|w ws [Hk Hb] _ IH]; [done|].
  rewrite fmap_cons, Hk, Hb. simpl. rewrite IH. lia.
Qed.

End RecordFacts.

(** X7: among the first six buttons of a wrapper side and bet type tell
    the positions apart; from the fourth button on, the button three places
    later gets the same side and bet type, so a seventh button is labelled
    like the fourth. *)
Theorem button_positions (game : string) (b b' : goquery.Node) (j k : nat) :
  (j < 6 -> k < 6 ->
   Side (buttonMarket game j b) = Side (buttonMarket game k b') ->
   BetType (buttonMarket game j b) = BetType (buttonMarket game k b') ->
   j = k)
  /\ (3 <= j ->
      Side (buttonMarket game (j + 3) b') = Side (buttonMarket game j b)
      /\ BetType (buttonMarket game (j + 3) b')
         = BetType (buttonMarket game j b)).
Proof.
  split.
  - intros Hj Hk.
    destruct j as [|[|[|[|[|[|j]]]]]]; try lia;
      destruct k as [|[|[|[|[|[|k]]]]]]; try lia; done.
  - intros Hj. unfold buttonMarket. cbn [Side BetType].
    replace ((j + 3) mod 3) with (j mod 3)
      by (rewrite <- (Nat.Div0.add_mod_idemp_r j 3 3); simpl (3 mod 3);
          by rewrite Nat.add_0_r).
    by destruct (Nat.leb_spec 3 (j + 3)), (Nat.leb_spec 3 j); try lia.
Qed.

Section PartitionFacts.

Lemma recordsOf_other (g g' : string) (l : list Market) :
  g' <> g ->
  recordsOf g' (filter (fun m => Game m <> g) l) = recordsOf g' l.
Proof.
  intros Hne. unfold recordsOf. rewrite list_filter_filter.
  apply list_filter_iff. intros m. split; [by intros [? _]|].
  intros ->. done.
Qed.

(** Distinct keys that cover every game split the records, none lost and
    none twice. *)
Lemma recordsOf_partition (keys : list string) (l : list Market) :
  NoDup keys -> (forall m, m ∈ l -> Game m ∈ keys) ->
  flat_map (fun g => recordsOf g l) keys ≡ₚ l.
Proof.
  intros Hnd. revert l. induction Hnd as [|g keys Hg Hnd IH]; intros l Hcover.
  - destruct l as [|m l]; [done|].
    by destruct (not_elem_of_nil (Game m)); apply Hcover; left.
  - simpl.
    transitivity (recordsOf g l ++ filter (fun m => Game m <> g) l);
      [|apply (filter_app_complement (fun m => Game m = g))].
    apply Permutation_app; [done|].
    assert (flat_map (fun g' => recordsOf g' l) keys
            = flat_map (fun g' => recordsOf g' (filter (fun m => Game m <> g) l))
                       keys) as ->.
    { clear -Hg. induction keys as [|g' keys IH]; [done|].
      apply not_elem_of_cons in Hg as [Hne Hg]. simpl.
      by rewrite IH, recordsOf_other. }
    apply IH. intros m [Hne Hm]%list_elem_of_filter.
    apply Hcover in Hm. by apply elem_of_cons in Hm as [?|?].
Qed.

Lemma map_to_list_groupByGame (markets : list Market) :
  map_to_list (groupByGame markets)
  = (fun g => (g, recordsOf g markets))
      <$> (map_to_list (groupByGame markets)).*1.
Proof.
  assert (Forall (fun entry => entry.2 = recordsOf entry.1 markets)
                 (map_to_list (groupByGame markets))) as Hall.
  { apply Forall_forall. intros [g ms] Hin. simpl.
    by apply elem_of_map_to_list, groupByGame_lookup in Hin as [-> _]. }
  induction Hall as [|[g ms] entries Hentry _ IH]; [done|].
  rewrite !fmap_cons. simpl in Hentry. cbn [fst]. rewrite <- Hentry.
  f_equal. exact IH.
Qed.

Lemma flat_map_fmap {A B C : Type} (f : A -> B) (g : B -> list C) (l : list A) :
  flat_map g (f <$> l) = flat_map (fun a => g (f a)) l.
Proof.
  induction l as [|a l IH]; [done|].
  rewrite fmap_cons. cbn [flat_map]. by rewrite IH.
Qed.

(** X8: grouping by game loses and invents nothing: a game has no entry
    exactly when no record names it, the entry of a game is the non-empty
    list of its records in the order of extraction, and the entries together
    are the records, each once. *)
Theorem groupByGame_partition (markets : list Market) :
  (forall g, groupByGame markets !! g = None <-> g ∉ Game <$> markets)
  /\ (forall g ms,
        groupByGame markets !! g = Some ms ->
        ms <> [] /\ ms = recordsOf g markets /\ Forall (fun m => Game m = g) ms)
  /\ flat_map snd (map_to_list (groupByGame markets)) ≡ₚ markets.
Proof.
  split; [|split].
  - intros g. rewrite <- recordsOf_nil_iff. split.
    + intros Hnone. destruct (recordsOf g markets) as [|m ms] eqn:E; [done|].
      assert (groupByGame markets !! g = Some (m :: ms)) as Hsome
        by (apply groupByGame_lookup; by rewrite E).
      congruence.
    + intros Hnil. destruct (groupByGame markets !! g) as [ms|] eqn:E; [|done].
      apply groupByGame_lookup in E as [-> Hne]. done.
  - intros g ms [-> Hne]%groupByGame_lookup. split; [done|]. split; [done|].
    apply Forall_forall. by intros m [? _]%list_elem_of_filter.
  - rewrite map_to_list_groupByGame, flat_map_fmap. simpl.
    apply recordsOf_partition; [apply NoDup_fst_map_to_list|].
    intros m Hm. rewrite groupByGame_keys, elem_of_remove_dups.
    apply list_elem_of_fmap. eauto.
Qed.

End PartitionFacts.

Section ReportFacts.

Lemma isRecordCall_marketCall (m : Market) : isRecordCall (marketCall m) = true.
Proof. unfold marketCall. by destruct (F64.eqb (Line m) F64.zero). Qed.

Lemma filter_marketCalls (ms : list Market) :
  List.filter isRecordCall (marketCall <$> ms) = marketCall <$> ms.
Proof.
  induction ms as [|m ms IH]; [done|].
  rewrite fmap_cons. cbn [List.filter].
  by rewrite isRecordCall_marketCall, IH.
Qed.

Lemma filter_record_block (markets : list Market) (g : string) :
  List.filter isRecordCall (gameBlock markets g)
  = marketCall <$> recordsOf g markets.
Proof.
  unfold gameBlock. rewrite !List.filter_app, filter_marketCalls.
  by rewrite app_nil_r.
Qed.

Lemma length_gameBlock (markets : list Market) (g : string) :
  length (gameBlock markets g) = 3 + length (recordsOf g markets).
Proof.
  unfold gameBlock. rewrite !length_app, length_fmap. simpl. lia.
Qed.

Lemma fmap_flat_map {A B C : Type} (f : B -> C) (g : A -> list B) (l : list A) :
  f <$> flat_map g l = flat_map (fun a => f <$> g a) l.
Proof.
  induction l as [|a l IH]; [done|].
  cbn [flat_map]. by rewrite fmap_app, IH.
Qed.

Variables rangeOrder rangeOrder' :
  gmap string (list Market) -> list (string * list Market).
Hypothesis rangeOrder_perm : forall m, rangeOrder m ≡ₚ map_to_list m.
Hypothesis rangeOrder_perm' : forall m, rangeOrder' m ≡ₚ map_to_list m.

(** The report of a non-empty collection, block by block. *)
Lemma printMarkets_blocks (markets : list Market) (c : Console) :
  markets <> [] ->
  printMarkets rangeOrder markets c
  = (tt, c ++ headerCall (length markets)
              :: flat_map (gameBlock markets)
                          (rangeOrder (groupByGame markets)).*1)
  /\ (rangeOrder (groupByGame markets)).*1 ≡ₚ remove_dups (Game <$> markets).
Proof.
  intros Hne. split.
  - rewrite printMarkets_run by done.
    by rewrite (rangeOrder_entries _ rangeOrder_perm).
  - rewrite rangeOrder_perm. apply groupByGame_keys.
Qed.

(** X9: whatever the order in which the map is visited, the lines of the
    report that print a record are the records' lines, each once, and the
    report has one line for the header (or for "No markets found"), three
    for each distinct game and one for each record. *)
Theorem printMarkets_every_record_once (markets : list Market) (c : Console) :
  exists report,
    printMarkets rangeOrder markets c = (tt, c ++ report)
    /\ List.filter isRecordCall report ≡ₚ marketCall <$> markets
    /\ length report
       = 1 + 3 * length (remove_dups (Game <$> markets)) + length markets.
Proof.
  destruct (decide (markets = [])) as [->|Hne].
  { exists [noMarketsCall]. done. }
  destruct (printMarkets_blocks markets c Hne) as [Hrun Hgames].
  set (games := (rangeOrder (groupByGame markets)).*1) in *.
  assert (flat_map (fun g => recordsOf g markets) games ≡ₚ markets) as Hpart.
  { apply recordsOf_partition.
    - rewrite Hgames. apply NoDup_remove_dups.
    - intros m Hm. rewrite Hgames, elem_of_remove_dups.
      apply list_elem_of_fmap. eauto. }
  eexists. split; [exact Hrun|]. split.
  - change (List.filter isRecordCall (flat_map (gameBlock markets) games)
            ≡ₚ marketCall <$> markets).
    assert (List.filter isRecordCall (flat_map (gameBlock markets) games)
            = marketCall <$> flat_map (fun g => recordsOf g markets) games)
      as ->; [|by apply fmap_Permutation].
    rewrite fmap_flat_map.
    clear. induction games as [|g games IH]; [done|].
    cbn [flat_map]. by rewrite List.filter_app, filter_record_block, IH.
  - assert (length (flat_map (gameBlock markets) games)
            = 3 * length games
              + length (flat_map (fun g => recordsOf g markets) games)) as Hlen.
    { clear. induction games as [|g games IH]; [done|].
      cbn [flat_map]. rewrite !length_app, length_gameBlock, IH.
      cbn [length]. lia. }
    cbn [length]. rewrite Hlen.
    by rewrite (Permutation_length Hpart), (Permutation_length Hgames).
Qed.

(** X10: two orders of visiting the map give reports with the same
    calls; only their order differs. *)
Theorem printMarkets_any_order (markets : list Market) (c : Console) :
  (printMarkets rangeOrder markets c).2
  ≡ₚ (printMarkets rangeOrder' markets c).2.
Proof.
  destruct (decide (markets = [])) as [->|Hne]; [done|].
  destruct (printMarkets_blocks markets c Hne) as [-> Hgames].
  rewrite printMarkets_run by done.
  rewrite (rangeOrder_entries _ rangeOrder_perm'). simpl.
  apply Permutation_app; [done|]. constructor.
  apply Permutation_flat_map.
  by rewrite Hgames, rangeOrder_perm', groupByGame_keys.
Qed.

End ReportFacts.

Lemma flat_map_marketsOf_nil (ws : goquery.Selection) :
  flat_map marketsOf ws = []
  <-> Forall (fun w => kept w = false \/ buttons w = []) ws.
Proof.
  induction ws as [|w ws IH]; [by split|].
  cbn [flat_map]. rewrite Forall_cons, <- IH, <- marketsOf_nil_iff.
  split; [by intros [? ?]%app_eq_nil|by intros [-> ->]].
Qed.

Section CycleFacts.

Variable NewDocumentFromReader : string -> goquery.Node + error.
Variable rangeOrder :
  gmap string (list Market) -> list (string * list Market).
Variable chromedp_Run : string -> string -> string -> string + error.
Variable fmt_Errorf : string -> error -> error.

Lemma scrapeNFLMarkets_failed (err : error) (c : Console) :
  chromedp_Run NFLURL ".cms-market-selector-content" "html" = inr err ->
  scrapeNFLMarkets NewDocumentFromReader chromedp_Run fmt_Errorf c
  = (([], Some (fmt_Errorf "chromedp error: %w" err)), c ++ [loadingCall]).
Proof.
  intros H. unfold scrapeNFLMarkets. rewrite call_then. by rewrite H.
Qed.

Lemma scrapeNFLMarkets_loaded (html : string) (c : Console) :
  chromedp_Run NFLURL ".cms-market-selector-content" "html" = inl html ->
  scrapeNFLMarkets NewDocumentFromReader chromedp_Run fmt_Errorf c
  = (((parseMarkets NewDocumentFromReader html
         (c ++ [loadingCall; parsingCall])).1, None),
     (parseMarkets NewDocumentFromReader html
        (c ++ [loadingCall; parsingCall])).2).
Proof.
  intros H. unfold scrapeNFLMarkets. rewrite call_then, H, call_then.
  rewrite bind_run, <- app_assoc. simpl.
  by destruct (parseMarkets _ _ _).
Qed.

Lemma scrapeAndLog_run (c : Console) :
  scrapeAndLog NewDocumentFromReader rangeOrder chromedp_Run fmt_Errorf c
  = let r := scrapeNFLMarkets NewDocumentFromReader chromedp_Run fmt_Errorf
               (c ++ [startCall]) in
    match r.1.2 with
    | Some err =>
        (tt, r.2 ++ [log_Printf ("Error scraping markets: %v" +:+ nl)
                                [VError err]])
    | None => printMarkets rangeOrder r.1.1 r.2
    end.
Proof.
  unfold scrapeAndLog. rewrite call_then, bind_run. fold startCall.
  destruct (scrapeNFLMarkets _ _ _ _) as [[markets [err|]] c']; done.
Qed.

(** X11: when the browser fails, scrapeNFLMarkets returns no record and
    the wrapped error, and the cycle logs its start, the loading line and
    the error, and nothing else: no parsing line, no report, no "No markets
    found". *)
Theorem scrapeAndLog_fetch_failure (err : error) (c : Console) :
  chromedp_Run NFLURL ".cms-market-selector-content" "html" = inr err ->
  let out :=
    [startCall; loadingCall;
     log_Printf ("Error scraping markets: %v" +:+ nl)
                [VError (fmt_Errorf "chromedp error: %w" err)]] in
  scrapeAndLog NewDocumentFromReader rangeOrder chromedp_Run fmt_Errorf c
  = (tt, c ++ out)
  /\ (scrapeNFLMarkets NewDocumentFromReader chromedp_Run fmt_Errorf c).1
     = ([], Some (fmt_Errorf "chromedp error: %w" err))
  /\ (noMarketsCall ∉ out) /\ (parsingCall ∉ out)
  /\ Forall (fun k => isRecordCall k = false) out.
Proof.
  intros H. split; [|split].
  - rewrite scrapeAndLog_run, (scrapeNFLMarkets_failed _ _ H). simpl.
    by rewrite <- !app_assoc.
  - by rewrite (scrapeNFLMarkets_failed _ _ H).
  - split; [|split].
    + by intros [|[|[|[]%elem_of_nil]%elem_of_cons]%elem_of_cons]%elem_of_cons.
    + by intros [|[|[|[]%elem_of_nil]%elem_of_cons]%elem_of_cons]%elem_of_cons.
    + by repeat constructor.
Qed.

(** X12: markup the reader rejects is no error of scrapeNFLMarkets: it
    returns no record and no error, and the cycle logs the parse error and
    then reports "No markets found". *)
Theorem scrapeAndLog_parse_failure (html : string) (err : error) (c : Console) :
  chromedp_Run NFLURL ".cms-market-selector-content" "html" = inl html ->
  NewDocumentFromReader html = inr err ->
  scrapeAndLog NewDocumentFromReader rangeOrder chromedp_Run fmt_Errorf c
  = (tt, c ++ [startCall; loadingCall; parsingCall;
               log_Printf ("Error parsing HTML: %v" +:+ nl) [VError err];
               noMarketsCall])
  /\ (scrapeNFLMarkets NewDocumentFromReader chromedp_Run fmt_Errorf c).1
     = ([], None).
Proof.
  intros Hrun Herr. split.
  - rewrite scrapeAndLog_run, (scrapeNFLMarkets_loaded _ _ Hrun).
    rewrite (parseMarkets_failed _ _ _ _ Herr). simpl.
    unfold printMarkets. simpl. rewrite call_run.
    by rewrite <- !app_assoc.
  - rewrite (scrapeNFLMarkets_loaded _ _ Hrun).
    by rewrite (parseMarkets_failed _ _ _ _ Herr).
Qed.

Lemma noMarketsCall_not_in_entries (entries : list (string * list Market)) :
  noMarketsCall ∉ flat_map entryBlock entries.
Proof.
  rewrite list_elem_of_In, in_flat_map. intros (e & _ & Hin).
  apply list_elem_of_In in Hin. unfold entryBlock in Hin.
  rewrite !elem_of_app, !elem_of_cons, list_elem_of_fmap in Hin.
  destruct Hin as [[|[|[]%elem_of_nil]]|[(m & Hm & _)|[|[]%elem_of_nil]]];
    try done.
Qed.

(** X13: on a page that parses, the cycle logs its three lines and then
    the report: "No markets found" alone when every wrapper is skipped or has
    no button; otherwise a report that starts with the header, whose count is
    the number of buttons of the wrappers that pass the guard, and that does
    not hold "No markets found". *)
Theorem scrapeAndLog_report (html : string) (doc : goquery.Node) (c : Console) :
  chromedp_Run NFLURL ".cms-market-selector-content" "html" = inl html ->
  NewDocumentFromReader html = inl doc ->
  exists report,
    scrapeAndLog NewDocumentFromReader rangeOrder chromedp_Run fmt_Errorf c
    = (tt, c ++ [startCall; loadingCall; parsingCall] ++ report)
    /\ (Forall (fun w => kept w = false \/ buttons w = []) (gameWrappers doc) ->
        report = [noMarketsCall])
    /\ (Exists (fun w => kept w = true /\ buttons w <> []) (gameWrappers doc) ->
        (noMarketsCall ∉ report)
        /\ exists blocks,
             report
             = headerCall (sum_list ((fun w => if kept w then length (buttons w)
                                                else 0) <$> gameWrappers doc))
               :: blocks).
Proof.
  intros Hrun Hdoc.
  pose proof (length_flat_map_marketsOf (gameWrappers doc)) as Hcount.
  set (markets := flat_map marketsOf (gameWrappers doc)) in *.
  assert (scrapeAndLog NewDocumentFromReader rangeOrder chromedp_Run
            fmt_Errorf c
          = printMarkets rangeOrder markets
              (c ++ [startCall; loadingCall; parsingCall])) as Hcycle.
  { rewrite scrapeAndLog_run, (scrapeNFLMarkets_loaded _ _ Hrun).
    rewrite (parseMarkets_parsed _ _ _ _ Hdoc). simpl.
    by rewrite <- !app_assoc. }
  destruct (decide (markets = [])) as [Hnil|Hne].
  - exists [noMarketsCall]. split.
    { rewrite Hcycle, Hnil. unfold printMarkets. simpl. rewrite call_run.
      by rewrite <- app_assoc. }
    split; [done|]. intros Hex. exfalso.
    apply flat_map_marketsOf_nil in Hnil.
    apply Exists_exists in Hex as (w & Hw & Hk & Hb).
    rewrite Forall_forall in Hnil.
    destruct (Hnil w Hw) as [Hk'|Hb']; congruence.
  - exists (headerCall (length markets)
            :: flat_map entryBlock (rangeOrder (groupByGame markets))).
    split; [by rewrite Hcycle, printMarkets_run, <- app_assoc|]. split.
    + intros Hall%flat_map_marketsOf_nil. done.
    + intros _. split.
      * intros [|Hin]%elem_of_cons; [done|].
        by apply noMarketsCall_not_in_entries in Hin.
      * eexists. by rewrite Hcount.
Qed.

End CycleFacts.

Lemma scrapeAndLog_fetch_failure_witness :
  scrapeAndLog Sample.reader map_to_list SampleCycle.timeout
               SampleCycle.errorf []
  = (tt, [startCall; loadingCall;
          log_Printf ("Error scraping markets: %v" +:+ nl)
            [VError (ReadError "chromedp error: context deadline exceeded")]]).
Proof.
  apply (scrapeAndLog_fetch_failure Sample.reader map_to_list
           SampleCycle.timeout SampleCycle.errorf
           (ReadError "context deadline exceeded") []).
  reflexivity.
Defined.

Lemma scrapeAndLog_parse_failure_witness :
  scrapeAndLog Sample.reader map_to_list SampleCycle.blank
               SampleCycle.errorf []
  = (tt, [startCall; loadingCall; parsingCall;
          log_Printf ("Error parsing HTML: %v" +:+ nl)
                     [VError (ReadError "unexpected EOF")];
          noMarketsCall]).
Proof.
  apply (scrapeAndLog_parse_failure Sample.reader map_to_list
           SampleCycle.blank SampleCycle.errorf "" (ReadError "unexpected EOF")
           []); reflexivity.
Defined.

Lemma scrapeAndLog_report_witness :
  exists blocks,
    (scrapeAndLog Sample.reader map_to_list SampleCycle.loaded
                  SampleCycle.errorf []).2
    = [startCall; loadingCall; parsingCall] ++ headerCall 6 :: blocks.
Proof.
  destruct (scrapeAndLog_report Sample.reader map_to_list SampleCycle.loaded
              SampleCycle.errorf "<html>" Sample.doc [] eq_refl eq_refl)
    as (report & Hrun & _ & Hsome).
  destruct Hsome as [_ [blocks ->]].
  - apply Exists_cons_hd. split; [reflexivity|by vm_compute].
  - exists blocks. by rewrite Hrun.
Defined.

(** The sample documents once more. *)

Lemma parseOdds_surrounding_space_witness :
  parseOdds (" " +:+ String (ascii_of_nat 9) "" +:+ "+150") = parseOdds "+150".
Proof.
  apply (proj2 (parseOdds_surrounding_space "+150")
               (" " +:+ String (ascii_of_nat 9) "")).
  apply (whitespaceOnly_cons " "); [by apply spaceRune1|].
  apply (whitespaceOnly_cons (String (ascii_of_nat 9) "") "");
    [by apply spaceRune1 | apply whitespaceOnly_nil].
Defined.

Lemma parseMarkets_provenance_witness :
  exists doc gameWrapper j button,
    Sample.reader "<html>" = inl doc
    /\ gameWrapper ∈ gameWrappers doc
    /\ buttons gameWrapper !! j = Some button
    /\ F64.ofZ (-110)
       = parseOdds (goquery.Text
                      (goquery.Find button ".cb-market__button-odds")).
Proof.
  destruct (parseMarkets_provenance Sample.reader "<html>" []
              (buttonMarket "Eagles vs Cowboys" 0
                 (Sample.button "-3.5" (unicodeMinus +:+ "110"))))
    as (doc & w & j & button & Hdoc & Hw & Hb & _ & Hodds & _).
  - vm_compute. left.
  - exists doc, w, j, button. repeat (split; [assumption|]).
    rewrite <- Hodds. vm_compute. reflexivity.
Defined.

Lemma parseMarkets_records_wellformed_witness :
  exists teamA teamB,
    "Eagles vs Cowboys" = teamA +:+ " vs " +:+ teamB
    /\ teamA <> "" /\ teamB <> ""
    /\ strings.TrimSpace teamA = teamA
    /\ strings.TrimSpace teamB = teamB.
Proof.
  apply (parseMarkets_records_wellformed Sample.reader "<html>" []
           (buttonMarket "Eagles vs Cowboys" 0
              (Sample.button "-3.5" (unicodeMinus +:+ "110")))).
  vm_compute. left.
Defined.

Lemma parseMarkets_count_witness :
  length (parseMarkets Sample.reader "<html>" []).1 = 6.
Proof.
  by rewrite (proj1 (parseMarkets_count Sample.reader "<html>" Sample.doc []
                       eq_refl)).
Defined.

Lemma printMarkets_every_record_once_witness :
  exists report,
    printMarkets map_to_list Sample.markets [] = (tt, [] ++ report)
    /\ List.filter isRecordCall report ≡ₚ marketCall <$> Sample.markets
    /\ length report = 10.
Proof.
  apply (printMarkets_every_record_once map_to_list
           (fun m => reflexivity _) Sample.markets []).
Defined.

Lemma printMarkets_any_order_witness :
  (printMarkets map_to_list Sample.markets []).2
  ≡ₚ (printMarkets (fun m => reverse (map_to_list m)) Sample.markets []).2.
Proof.
  apply printMarkets_any_order.
  - intros m. reflexivity.
  - intros m. apply reverse_Permutation.
Defined.
